(** * PeeMeter: the log of timestamped entries, its views and its store

    A shallow embedding of the application code and the properties its
    specification states about it.  The code is in two files:
    - src/sw.js holds the service worker (lines 1-64) and two
      revisions of App.tsx: the later one with the chart (lines 65-439) and
      the earlier one (lines 440-602);
    - src/unnamed/part_001 is hooks/useLocalStorage.ts.
    Line numbers in the comments below refer to these files.

    Conventions of the embedding:
    - a JavaScript number that holds a count or a millisecond time value is
      an integer of [Z] (all of them stay far below 2^53); a division whose
      result is compared or rounded is carried out in [Q], as the source
      writes it;
    - the facilities of the host (Intl.DateTimeFormat, Date, JSON, the
      clock, localStorage, the clipboard, window.confirm) are not code of
      the repository: the pure ones are the fields of the class [Host],
      total on the time values the application records, the stateful ones
      are components of the state record [State];
    - a JavaScript object used as a dictionary keeps its keys in insertion
      order (all keys here are date strings, never array indices or names
      inherited from Object.prototype), so it is an association list
      updated in place ([Obj]);
    - Array.prototype.sort is stable; it is a stable insertion sort
      ([sortBy]) driven by the comparator of the source;
    - code that may throw runs in a state-and-exception monad [M]; try/catch
      is [try_catch]. *)

From Stdlib Require Import ZArith QArith Qround List String Ascii Bool Lia.
From Stdlib Require Import Permutation Sorted DecimalString DecimalZ.
From stdpp Require Import gmap strings.
Import ListNotations.

Open Scope Z_scope.

(** ** Data model *)

(** Modelled from the spec: the declaration of LogEntry (types.ts) is not
    among the sources.  The spec gives an entry two integer fields, [id] and
    [timestamp], the two fields App.tsx fills (src/sw.js, line 313 and
    lines 522-525). *)
Record LogEntry : Type := mkLogEntry { id : Z; timestamp : Z }.

(* src/sw.js, line 75 *)
Inductive ChartPeriod : Type := week | month | all.

(** The option bags handed to [formatTimestamp] in the source. *)
Inductive DateTimeFormatOptions : Type :=
| LongDay        (* { year: 'numeric', month: 'long', day: 'numeric', weekday: 'long' } *)
| ClockTime      (* { hour: '2-digit', minute: '2-digit', second: '2-digit', hour12: true } *)
| NumericDay     (* { day: '2-digit', month: '2-digit', year: 'numeric' } *)
| ShortDay       (* { day: 'numeric', month: 'short' } *)
| DateStyleFull  (* { dateStyle: 'full' } *)
| TimeStyleMedium (* { timeStyle: 'medium' } *).

(** Result of evaluating code that may throw. *)
Inductive Outcome (A : Type) : Type :=
| Returns (a : A)
| Throws (error : string).
Arguments Returns {A} a.
Arguments Throws {A} error.

(** ** The host: pure facilities of the JavaScript platform *)

Class Host : Type := {
  (* new Intl.DateTimeFormat('es-ES', options).format(new Date(t)) *)
  Intl_format : DateTimeFormatOptions -> Z -> string;
  (* time value of d after d.setHours(0, 0, 0, 0), for d = new Date(t) *)
  setHours0 : Z -> Z;
  (* new Date(t).toISOString() *)
  toISOString : Z -> string;
  JSON_stringify : list LogEntry -> string;
  (* JSON.parse throws a SyntaxError on text that is not JSON; what it
     returns is used at the type LogEntry[] without a check *)
  JSON_parse : string -> Outcome (list LogEntry)
}.

(** ** JavaScript helpers *)

(** [s.split('T')[0]]: the part of [s] before its first 'T'. *)
Fixpoint split_T_0 (s : string) : string :=
  match s with
  | EmptyString => EmptyString
  | String c rest =>
      if Ascii.eqb c "T"%char then EmptyString else String c (split_T_0 rest)
  end.

(** [lines.join('\n')] *)
Definition newline : string := String (ascii_of_nat 10) EmptyString.

Fixpoint join (sep : string) (parts : list string) : string :=
  match parts with
  | [] => EmptyString
  | [p] => p
  | p :: rest => String.append p (String.append sep (join sep rest))
  end.

(** Array.prototype.sort(cmp): stable; [x] stays in front of the first
    element it does not have to follow. *)
Section Sort.
Context {A : Type} (cmp : A -> A -> Z).

Fixpoint insertBy (x : A) (sorted : list A) : list A :=
  match sorted with
  | [] => [x]
  | y :: rest => if cmp x y <=? 0 then x :: y :: rest else y :: insertBy x rest
  end.

Fixpoint sortBy (l : list A) : list A :=
  match l with
  | [] => []
  | x :: rest => insertBy x (sortBy rest)
  end.
End Sort.

(** A JavaScript object used as a dictionary with string keys. *)
Module Obj.
Section Ops.
Context {V : Type}.

(* o[k]; None is undefined *)
Fixpoint get (o : list (string * V)) (k : string) : option V :=
  match o with
  | [] => None
  | (k', v) :: rest => if String.eqb k' k then Some v else get rest k
  end.

(* o[k] = v: an existing key keeps its place, a new one goes last *)
Fixpoint set (o : list (string * V)) (k : string) (v : V) : list (string * V) :=
  match o with
  | [] => [(k, v)]
  | (k', v') :: rest =>
      if String.eqb k' k then (k', v) :: rest else (k', v') :: set rest k v
  end.

(* Object.keys(o) *)
Definition keys (o : list (string * V)) : list string := List.map fst o.

(* Object.entries(o) *)
Definition entries (o : list (string * V)) : list (string * V) := o.
End Ops.
End Obj.

(** Math.round(q): the nearest integer, halves upwards. *)
Definition Math_round (q : Q) : Z := Qfloor (q + (1 # 2)).

(** Math.ceil(q) *)
Definition Math_ceil (q : Q) : Z := Qceiling q.

(** [x < y] on the rationals, as a boolean. *)
Definition Qltb (x y : Q) : bool := negb (Qle_bool y x).

(** ** The views of App.tsx: formatTimestamp, LogChart, LogList, DetailsModal *)

Section View.
Context {host : Host}.

(* src/sw.js, lines 71-73 *)
Definition formatTimestamp (t : Z) (options : DateTimeFormatOptions) : string :=
  Intl_format options t.

(** The day key of the chart, computed alike at lines 159-161 and 335-337:
    d = new Date(t); d.setHours(0,0,0,0); d.toISOString().split('T')[0] *)
Definition dateStringOf (t : Z) : string := split_T_0 (toISOString (setHours0 t)).

(** *** LogChart (src/sw.js, lines 141-230) *)

(* line 144 *)
Definition oneDay : Z := 1000 * 60 * 60 * 24.

(* lines 146-154; [now] is now.getTime() *)
Definition filteredEntries (now : Z) (period : ChartPeriod)
    (entries : list LogEntry) : list LogEntry :=
  List.filter
    (fun entry =>
       match period with
       | week => Qltb (inject_Z (now - timestamp entry) / inject_Z oneDay) 7
       | month => Qltb (inject_Z (now - timestamp entry) / inject_Z oneDay) 30
       | all => true
       end)
    entries.

Record DayCount : Type := mkDayCount { count : Z; date : Z }.

(* lines 158-168 *)
Definition countsByDay (filtered : list LogEntry) : list (string * DayCount) :=
  fold_left
    (fun acc entry =>
       let midnight := setHours0 (timestamp entry) in
       let dateString := split_T_0 (toISOString midnight) in
       let acc1 :=
         match Obj.get acc dateString with
         | None => Obj.set acc dateString (mkDayCount 0 midnight)
         | Some _ => acc
         end in
       match Obj.get acc1 dateString with
       | Some c => Obj.set acc1 dateString (mkDayCount (count c + 1) (date c))
       | None => acc1
       end)
    filtered [].

Record Bar : Type := mkBar {
  label : string; value : Z; bar_date : Z; fullDate : string
}.

(* lines 170-177 *)
Definition chartData (now : Z) (period : ChartPeriod)
    (entries : list LogEntry) : list Bar :=
  sortBy (fun a b => bar_date a - bar_date b)
    (List.map
       (fun '(dateString, c) =>
          mkBar (formatTimestamp (date c) ShortDay) (count c) (date c) dateString)
       (Obj.entries (countsByDay (filteredEntries now period entries)))).

(* lines 190-193, as functions of values = chartData.map(d => d.value) *)
Definition maxValue (values : list Z) : Z := fold_right Z.max 0 values.

Definition yAxisTop (values : list Z) : Z :=
  let m := maxValue values in
  if m <=? 5 then m else Math_ceil (inject_Z m / 5) * 5.

Definition numTicks (values : list Z) : Z :=
  let top := yAxisTop values in
  if 0 <? top then Z.min top 5 else 0.

Definition yAxisLabels (values : list Z) : list Z :=
  let top := yAxisTop values in
  let n := numTicks values in
  if 0 <? top
  then List.map
         (fun i => Math_round ((inject_Z top / inject_Z n) * inject_Z (Z.of_nat i)))
         (seq 0 (Z.to_nat n + 1))
  else [0].

(** *** LogList (src/sw.js, lines 83-133 and, unchanged, 456-507) *)

(* lines 84-93 *)
Definition groupedEntries (entries : list LogEntry) : list (string * list LogEntry) :=
  fold_left
    (fun acc entry =>
       let day := formatTimestamp (timestamp entry) LongDay in
       let acc1 :=
         match Obj.get acc day with
         | None => Obj.set acc day []
         | Some _ => acc
         end in
       match Obj.get acc1 day with
       | Some bucket => Obj.set acc1 day (bucket ++ [entry])
       | None => acc1
       end)
    entries [].

(* groupedEntries[k][0].timestamp (lines 97-98); the keys come from
   Object.keys and every bucket received a push, so the default is never
   taken *)
Definition firstTimestamp (grouped : list (string * list LogEntry)) (k : string) : Z :=
  match Obj.get grouped k with
  | Some (entry :: _) => timestamp entry
  | _ => 0
  end.

(* lines 95-101 *)
Definition sortedDates (grouped : list (string * list LogEntry)) : list string :=
  sortBy (fun a b => firstTimestamp grouped b - firstTimestamp grouped a)
    (Obj.keys grouped).

Definition bucketOf (grouped : list (string * list LogEntry)) (k : string) : list LogEntry :=
  match Obj.get grouped k with
  | Some bucket => bucket
  | None => []
  end.

(** What the component renders (lines 114-130): one section per date of
    [sortedDates], the heading first, then the bucket sorted by
    [(a, b) => b.timestamp - a.timestamp].  [sortedDates] is computed
    (useMemo) before any bucket is sorted in place, and is not recomputed
    afterwards for the same [entries]. *)
Definition LogList (entries : list LogEntry) : list (string * list LogEntry) :=
  let grouped := groupedEntries entries in
  List.map
    (fun day => (day, sortBy (fun a b => timestamp b - timestamp a) (bucketOf grouped day)))
    (sortedDates grouped).

(** *** DetailsModal: the rows of the list it shows (line 252)

    The sort is in place, on the array [handleBarClick] built: afterwards
    the rows and the array held in selectedDayData are this same list. *)
Definition DetailsModal (dayData : list LogEntry) : list LogEntry :=
  sortBy (fun a b => timestamp b - timestamp a) dayData.
End View.

(** ** State and effects

    Everything a handler can read or change: the React state of [App], the
    browser storage, the console, the clock, the clipboard and the answer
    the user gives to window.confirm. *)

Record Storage : Type := mkStorage {
  items : gmap string string;
  accessDenied : bool;    (* every access to localStorage throws *)
  quotaExceeded : bool    (* setItem throws *)
}.

Record State : Type := mkState {
  log : list LogEntry;                     (* storedValue of useLocalStorage *)
  toastMessage : option string;
  selectedDayData : option (list LogEntry);
  window : option Storage;                 (* None: typeof window === 'undefined' *)
  console : list string;                   (* what console.error received *)
  clock : nat -> Z;                        (* successive readings of Date.now() *)
  ticks : nat;                             (* readings taken so far *)
  confirmReply : bool;                     (* the user's answer to window.confirm *)
  clipboardRejects : bool;                 (* writeText's promise rejects *)
  clipboard : option string
}.

Definition M (A : Type) : Type := State -> Outcome A * State.

Definition ret {A : Type} (a : A) : M A := fun s => (Returns a, s).

Definition bind {A B : Type} (m : M A) (k : A -> M B) : M B :=
  fun s =>
    match m s with
    | (Returns a, s') => k a s'
    | (Throws error, s') => (Throws error, s')
    end.

(** try { body } catch (error) { handler(error) }: what [body] did to the
    state before it threw stays done. *)
Definition try_catch {A : Type} (body : M A) (handler : string -> M A) : M A :=
  fun s =>
    match body s with
    | (Returns a, s') => (Returns a, s')
    | (Throws error, s') => handler error s'
    end.

Declare Scope js_scope.
Delimit Scope js_scope with js.
Notation "x <- m ;; k" := (bind m (fun x => k))
  (at level 100, m at next level, right associativity) : js_scope.
Notation "m ;; k" := (bind m (fun _ => k))
  (at level 100, right associativity) : js_scope.
Open Scope js_scope.

Definition with_log (v : list LogEntry) (s : State) : State :=
  mkState v (toastMessage s) (selectedDayData s) (window s) (console s)
    (clock s) (ticks s) (confirmReply s) (clipboardRejects s) (clipboard s).

Definition with_toastMessage (v : option string) (s : State) : State :=
  mkState (log s) v (selectedDayData s) (window s) (console s)
    (clock s) (ticks s) (confirmReply s) (clipboardRejects s) (clipboard s).

Definition with_selectedDayData (v : option (list LogEntry)) (s : State) : State :=
  mkState (log s) (toastMessage s) v (window s) (console s)
    (clock s) (ticks s) (confirmReply s) (clipboardRejects s) (clipboard s).

Definition with_window (v : option Storage) (s : State) : State :=
  mkState (log s) (toastMessage s) (selectedDayData s) v (console s)
    (clock s) (ticks s) (confirmReply s) (clipboardRejects s) (clipboard s).

Definition with_console (v : list string) (s : State) : State :=
  mkState (log s) (toastMessage s) (selectedDayData s) (window s) v
    (clock s) (ticks s) (confirmReply s) (clipboardRejects s) (clipboard s).

Definition with_ticks (v : nat) (s : State) : State :=
  mkState (log s) (toastMessage s) (selectedDayData s) (window s) (console s)
    (clock s) v (confirmReply s) (clipboardRejects s) (clipboard s).

Definition with_clipboard (v : option string) (s : State) : State :=
  mkState (log s) (toastMessage s) (selectedDayData s) (window s) (console s)
    (clock s) (ticks s) (confirmReply s) (clipboardRejects s) v.

(** *** Primitive effects *)

Definition typeof_window_undefined : M bool :=
  fun s => (Returns (match window s with None => true | Some _ => false end), s).

(* window.localStorage.getItem(key); null is None *)
Definition localStorage_getItem (key : string) : M (option string) :=
  fun s =>
    match window s with
    | None => (Throws "ReferenceError", s)
    | Some st =>
        if accessDenied st then (Throws "SecurityError", s)
        else (Returns (items st !! key), s)
    end.

(* window.localStorage.setItem(key, text) *)
Definition localStorage_setItem (key text : string) : M unit :=
  fun s =>
    match window s with
    | None => (Throws "ReferenceError", s)
    | Some st =>
        if accessDenied st then (Throws "SecurityError", s)
        else if quotaExceeded st then (Throws "QuotaExceededError", s)
        else (Returns tt,
              with_window
                (Some (mkStorage (<[key := text]> (items st))
                         (accessDenied st) (quotaExceeded st))) s)
    end.

Definition console_error (error : string) : M unit :=
  fun s => (Returns tt, with_console (console s ++ [error]) s).

Definition Date_now : M Z :=
  fun s => (Returns (clock s (ticks s)), with_ticks (S (ticks s)) s).

Definition window_confirm (question : string) : M bool :=
  fun s => (Returns (confirmReply s), s).

(* navigator.clipboard.writeText(text), with the settlement of its promise
   as the result: true when it resolves, false when it rejects *)
Definition clipboard_writeText (text : string) : M bool :=
  fun s =>
    if clipboardRejects s then (Returns false, s)
    else (Returns true, with_clipboard (Some text) s).

Definition lift {A : Type} (o : Outcome A) : M A := fun s => (o, s).

(** ** hooks/useLocalStorage.ts (src/unnamed/part_001), at the type
    [LogEntry[]] at which [App] uses it *)

Section App.
Context {host : Host}.

(* a JavaScript string is truthy unless it is empty *)
Definition truthy (text : string) : bool :=
  match text with
  | EmptyString => false
  | String _ _ => true
  end.

(** The initializer handed to useState (lines 5-16): the value the hook
    starts from. *)
Definition useLocalStorage_init (key : string) (initialValue : list LogEntry)
    : M (list LogEntry) :=
  noWindow <- typeof_window_undefined ;;
  if noWindow then ret initialValue
  else
    try_catch
      (item <- localStorage_getItem key ;;
       match item with
       | Some text => if truthy text then lift (JSON_parse text) else ret initialValue
       | None => ret initialValue
       end)
      (fun error => console_error error ;; ret initialValue).

(** SetStateAction<T>: a value, or a function of the previous value.  The
    function [App] passes reads the clock, so it is a computation. *)
Inductive SetStateAction : Type :=
| NewValue (v : list LogEntry)
| Updater (f : list LogEntry -> M (list LogEntry)).

Definition setStoredValue (v : list LogEntry) : M unit :=
  fun s => (Returns tt, with_log v s).

Definition storedValue : M (list LogEntry) := fun s => (Returns (log s), s).

(* lines 18-28 *)
Definition setValue (key : string) (value : SetStateAction) : M unit :=
  try_catch
    (valueToStore <-
       match value with
       | Updater f => (prev <- storedValue ;; f prev)
       | NewValue v => ret v
       end ;;
     setStoredValue valueToStore ;;
     noWindow <- typeof_window_undefined ;;
     if negb noWindow
     then localStorage_setItem key (JSON_stringify valueToStore)
     else ret tt)
    (fun error => console_error error).

(** ** App (src/sw.js, lines 265-437 and 510-601) *)

(* line 266 *)
Definition storageKey : string := "urinationLog".

Definition setLog : SetStateAction -> M unit := setValue storageKey.

(* setToastMessage(message); the timer that resets it to null two seconds
   later is outside the model *)
Definition showToast (message : string) : M unit :=
  fun s => (Returns tt, with_toastMessage (Some message) s).

Definition setSelectedDayData (v : option (list LogEntry)) : M unit :=
  fun s => (Returns tt, with_selectedDayData v s).

(** Lines 312-315: the entry is built inside the updater. *)
Definition handleLogUrination : M unit :=
  setLog (Updater (fun prevLog =>
            i <- Date_now ;;
            t <- Date_now ;;
            ret (mkLogEntry i t :: prevLog))) ;;
  showToast "¡Registro guardado!".

(** Lines 521-528, the earlier revision: the entry is built first. *)
Definition handleLogUrination_v2 : M unit :=
  i <- Date_now ;;
  t <- Date_now ;;
  let newEntry := mkLogEntry i t in
  setLog (Updater (fun prevLog => ret (newEntry :: prevLog))) ;;
  showToast "¡Registro guardado!".

(* the template string of line 322 (lines 536-540 in the earlier revision) *)
Definition exportLine (entry : LogEntry) : string :=
  String.append (formatTimestamp (timestamp entry) DateStyleFull)
    (String.append " - " (formatTimestamp (timestamp entry) TimeStyleMedium)).

(* lines 317-324 *)
Definition handleCopyToClipboard : M unit :=
  entries <- storedValue ;;
  if (Z.of_nat (List.length entries) =? 0)%Z
  then showToast "No hay nada que copiar."
  else
    let textToCopy := join newline (List.map exportLine entries) in
    resolved <- clipboard_writeText textToCopy ;;
    if resolved then showToast "¡Copiado al portapapeles!"
    else showToast "Error al copiar.".

(* lines 326-331 *)
Definition handleClearLog : M unit :=
  yes <- window_confirm
           "¿Estás seguro de que quieres borrar todos los registros? Esta acción no se puede deshacer." ;;
  if yes
  then setLog (NewValue []) ;; showToast "Registro borrado."
  else ret tt.

(* lines 334-338 *)
Definition dayEntriesOf (entries : list LogEntry) (dateString : string)
    : list LogEntry :=
  List.filter (fun entry => String.eqb (dateStringOf (timestamp entry)) dateString)
    entries.

(* lines 333-340 *)
Definition handleBarClick (dateString : string) : M unit :=
  entries <- storedValue ;;
  setSelectedDayData (Some (dayEntriesOf entries dateString)).

(** [n] presses of the '+' button in a row. *)
Fixpoint pressLog (n : nat) : M unit :=
  match n with
  | O => ret tt
  | S n' => pressLog n' ;; handleLogUrination
  end.
End App.

(** ** Auxiliary definitions used by the statements *)

(** The update both reducers of the source perform on their accumulator:
    [if (!acc[k]) acc[k] = init;] followed by an in-place change of
    [acc[k]]. *)
Definition upsert {V : Type} (init : V) (f : V -> V)
    (o : list (string * V)) (k : string) : list (string * V) :=
  let o1 :=
    match Obj.get o k with
    | None => Obj.set o k init
    | Some _ => o
    end in
  match Obj.get o1 k with
  | Some c => Obj.set o1 k (f c)
  | None => o1
  end.

(** What [upsert] does to the value under one key [k], entry by entry. *)
Definition upsert_at {A V : Type} (key : A -> string) (init : A -> V)
    (f : A -> V -> V) (k : string) (ov : option V) (x : A) : option V :=
  if String.eqb (key x) k
  then Some (f x (match ov with Some c => c | None => init x end))
  else ov.

Section Keys.
Context {host : Host}.

(** The heading an entry is listed under by [LogList]. *)
Definition dayOf (entry : LogEntry) : string :=
  formatTimestamp (timestamp entry) LongDay.

Definition onDay (k : string) (entry : LogEntry) : bool :=
  String.eqb (dayOf entry) k.

(** The key of the chart bin an entry is counted in. *)
Definition binOf (entry : LogEntry) : string := dateStringOf (timestamp entry).

Definition inBin (k : string) (entry : LogEntry) : bool :=
  String.eqb (binOf entry) k.
End Keys.

(** ** Assumptions on the host *)

Section HostAssumptions.
Context {host : Host}.

(** A calendar day is an interval of time: two instants that carry the
    same long date have only instants of that date between them. *)
Definition days_are_intervals : Prop :=
  forall t1 t2 t3 : Z,
    t1 <= t2 <= t3 ->
    Intl_format LongDay t1 = Intl_format LongDay t3 ->
    Intl_format LongDay t2 = Intl_format LongDay t1.

(** JSON writes the empty array as the two brackets and reads it back. *)
Definition json_empty_array : Prop :=
  JSON_stringify [] = "[]" /\ JSON_parse "[]" = Returns [].
End HostAssumptions.

(** ** A concrete host, on which the statements are exercised

    Days are the days of universal time, written as their number since the
    epoch; the time of day is written in milliseconds.  Of JSON it has the
    writer, and a reader that accepts the empty array only. *)

Definition number (z : Z) : string := NilEmpty.string_of_int (Z.to_int z).

Definition utcHost : Host := {|
  Intl_format options t :=
    match options with
    | LongDay | NumericDay | ShortDay | DateStyleFull =>
        String.append "day " (number (t / oneDay))
    | ClockTime | TimeStyleMedium =>
        String.append (number (t mod oneDay)) " ms"
    end;
  setHours0 t := t - t mod oneDay;
  toISOString t :=
    String.append "day-"
      (String.append (number (t / oneDay))
         (String.append "T" (number (t mod oneDay))));
  JSON_stringify entries :=
    match entries with
    | [] => "[]"
    | _ =>
        String.append "["
          (String.append
             (join ","
                (List.map
                   (fun entry =>
                      String.append (number (id entry))
                        (String.append ":" (number (timestamp entry))))
                   entries))
             "]")
    end;
  JSON_parse text :=
    if String.eqb text "[]" then Returns [] else Throws "SyntaxError"
|}.

(** A browser with an empty, working localStorage, a clock that reads
    1000, 1001, 1002, ... and a user who answers yes. *)
Definition freshState : State :=
  mkState [] None None (Some (mkStorage ∅ false false)) []
    (fun n => 1000 + Z.of_nat n) 0 true false None.

(** Four entries on three days, not in the order of their timestamps. *)
Definition fourEntries : list LogEntry :=
  [ mkLogEntry 1 (9 * oneDay + 5); mkLogEntry 2 (11 * oneDay + 7);
    mkLogEntry 3 (10 * oneDay + 1); mkLogEntry 4 (9 * oneDay + 50) ].

(** The entries [n] presses of '+' create from state [s], newest first:
    press [i] (from 0) takes the readings [2 i] and [2 i + 1] of the clock
    after those already taken. *)
Definition pressed (s : State) (n : nat) : list LogEntry :=
  List.map
    (fun i => mkLogEntry (clock s (ticks s + 2 * i)%nat)
                         (clock s (S (ticks s + 2 * i))%nat))
    (rev (seq 0 n)).

(** The same browser after the four entries were logged and saved. *)
Definition loggedState : State :=
  mkState fourEntries None None
    (Some (mkStorage {[ storageKey := JSON_stringify (Host := utcHost) fourEntries ]}
             false false))
    [] (fun n => 1000 + Z.of_nat n) 0 true false None.

(** A browser whose storage holds text that is not JSON under the key and
    accepts no further write. *)
Definition corruptState : State :=
  mkState [] None None
    (Some (mkStorage {[ storageKey := "oops" ]} false true))
    [] (fun n => 1000 + Z.of_nat n) 0 true false None.

(** ** The service worker (src/sw.js, lines 1-64)

    The Cache API and fetch belong to the host.  A cache is a finite map
    from the URL of a GET request to the response stored for it, the cache
    storage a finite map from cache names to caches, and the network a
    function that resolves a request with a response or rejects it.  The
    promises of one event are taken to settle before the next event is
    handled; console.log, skipWaiting and clients.claim are left out. *)

Module ServiceWorker.

Record Response : Type := mkResponse { status : Z; body : string }.

(* line 3 *)
Definition CACHE_NAME : string := "miccion-registro-cache-v1".

(* lines 4-11 *)
Definition urlsToCache : list string := ["/"; "/index.html"].

(* response.ok *)
Definition ok (response : Response) : bool :=
  (200 <=? status response) && (status response <=? 299).

(* caches.open(name): the cache of that name, created empty when absent *)
Definition caches_open (name : string) (caches : gmap string (gmap string Response))
    : gmap string Response * gmap string (gmap string Response) :=
  match caches !! name with
  | Some cache => (cache, caches)
  | None => (∅, <[name := ∅]> caches)
  end.

(* the requests of cache.addAll(urls): it rejects when a fetch rejects or a
   response is not ok *)
Fixpoint fetchAll (network : string -> Outcome Response) (urls : list string)
    : Outcome (list (string * Response)) :=
  match urls with
  | [] => Returns []
  | url :: rest =>
      match network url with
      | Throws error => Throws error
      | Returns response =>
          if ok response
          then match fetchAll network rest with
               | Returns fetched => Returns ((url, response) :: fetched)
               | Throws error => Throws error
               end
          else Throws "TypeError"
      end
  end.

(* cache.addAll(urls): all responses are stored, or none *)
Definition cache_addAll (network : string -> Outcome Response) (urls : list string)
    (cache : gmap string Response) : Outcome (gmap string Response) :=
  match fetchAll network urls with
  | Returns fetched =>
      Returns (fold_left (fun c '(url, response) => <[url := response]> c) fetched cache)
  | Throws error => Throws error
  end.

(* lines 14-24: what event.waitUntil receives, and the cache storage after *)
Definition install (network : string -> Outcome Response)
    (caches : gmap string (gmap string Response))
    : Outcome unit * gmap string (gmap string Response) :=
  let (cache, caches1) := caches_open CACHE_NAME caches in
  match cache_addAll network urlsToCache cache with
  | Returns cache' => (Returns tt, <[CACHE_NAME := cache']> caches1)
  | Throws error => (Throws error, caches1)
  end.

(* line 28 *)
Definition cacheWhitelist : list string := [CACHE_NAME].

(* Array.prototype.indexOf *)
Fixpoint indexOf (l : list string) (x : string) : Z :=
  match l with
  | [] => -1
  | y :: rest =>
      if String.eqb y x then 0
      else let i := indexOf rest x in if i =? -1 then -1 else i + 1
  end.

(* lines 27-43: caches.keys(), then caches.delete for the names that are not
   in the whitelist *)
Definition activate (caches : gmap string (gmap string Response))
    : gmap string (gmap string Response) :=
  fold_left
    (fun acc cacheName =>
       if indexOf cacheWhitelist cacheName =? -1 then delete cacheName acc else acc)
    (List.map fst (map_to_list caches)) caches.

(* lines 46-64: what event.respondWith receives, and the cache storage once
   the fetch has settled *)
Definition onFetch (network : string -> Outcome Response) (request : string)
    (caches : gmap string (gmap string Response))
    : Outcome Response * gmap string (gmap string Response) :=
  let (cache, caches1) := caches_open CACHE_NAME caches in
  let cachedResponse := cache !! request in
  let fetchPromise := network request in
  let cache' :=
    match fetchPromise with
    | Returns networkResponse =>
        if status networkResponse =? 200
        then <[request := networkResponse]> cache
        else cache
    | Throws _ => cache
    end in
  (match cachedResponse with
   | Some response => Returns response
   | None => fetchPromise
   end,
   <[CACHE_NAME := cache']> caches1).

(** The events of the worker's life, and the cache storage they leave. *)
Inductive Event : Type :=
| Install (network : string -> Outcome Response)
| Activate
| Fetch (network : string -> Outcome Response) (request : string).

Definition handle (event : Event) (caches : gmap string (gmap string Response))
    : gmap string (gmap string Response) :=
  match event with
  | Install network => snd (install network caches)
  | Activate => activate caches
  | Fetch network request => snd (onFetch network request caches)
  end.

Definition run (events : list Event) (caches : gmap string (gmap string Response))
    : gmap string (gmap string Response) :=
  fold_left (fun acc event => handle event acc) events caches.

(** What the current cache holds for a request. *)
Definition cached (caches : gmap string (gmap string Response)) (request : string)
    : option Response :=
  match caches !! CACHE_NAME with
  | Some cache => cache !! request
  | None => None
  end.

Definition offline : string -> Outcome Response := fun _ => Throws "TypeError".

End ServiceWorker.

(** ** Further definitions used by the statements *)

(** How often a character occurs in a text; a text of [n] line breaks has
    [n + 1] lines. *)
Fixpoint countChar (c : ascii) (s : string) : nat :=
  match s with
  | EmptyString => O
  | String d rest => ((if Ascii.eqb d c then 1 else 0) + countChar c rest)%nat
  end.

(** The sum of the values the bars display. *)
Definition totalValue (bars : list Bar) : Z :=
  fold_right Z.add 0 (List.map value bars).

(** The sum of the counts held by the accumulator of [countsByDay]. *)
Definition countSum (o : list (string * DayCount)) : Z :=
  fold_right Z.add 0 (List.map (fun kc => count (snd kc)) o).

(** The clock never goes back, respectively always moves on, from one
    reading to the next. *)
Definition clock_monotone (s : State) : Prop :=
  forall i j : nat, (i <= j)%nat -> clock s i <= clock s j.

Definition clock_increasing (s : State) : Prop :=
  forall i j : nat, (i < j)%nat -> clock s i < clock s j.

(** A second concrete host: the first one, with a reader for the text its
    writer produces. *)
Fixpoint splitOn (sep : ascii) (s : string) : list string :=
  match s with
  | EmptyString => [EmptyString]
  | String c rest =>
      if Ascii.eqb c sep then EmptyString :: splitOn sep rest
      else match splitOn sep rest with
           | [] => [String c EmptyString]
           | part :: parts => String c part :: parts
           end
  end.

Fixpoint dropLast (s : string) : string :=
  match s with
  | EmptyString => EmptyString
  | String c EmptyString => EmptyString
  | String c rest => String c (dropLast rest)
  end.

Definition readNumber (s : string) : option Z :=
  option_map Z.of_int (NilEmpty.int_of_string s).

Definition readEntry (s : string) : option LogEntry :=
  match splitOn ":"%char s with
  | [a; b] =>
      match readNumber a, readNumber b with
      | Some i, Some t => Some (mkLogEntry i t)
      | _, _ => None
      end
  | _ => None
  end.

Fixpoint readEntries (parts : list string) : option (list LogEntry) :=
  match parts with
  | [] => Some []
  | part :: rest =>
      match readEntry part, readEntries rest with
      | Some entry, Some entries => Some (entry :: entries)
      | _, _ => None
      end
  end.

Definition readLog (text : string) : Outcome (list LogEntry) :=
  match text with
  | String "["%char rest =>
      if String.eqb rest "]" then Returns []
      else match readEntries (splitOn ","%char (dropLast rest)) with
           | Some entries => Returns entries
           | None => Throws "SyntaxError"
           end
  | _ => Throws "SyntaxError"
  end.

Definition jsonHost : Host := {|
  Intl_format := Intl_format (Host := utcHost);
  setHours0 := setHours0 (Host := utcHost);
  toISOString := toISOString (Host := utcHost);
  JSON_stringify := JSON_stringify (Host := utcHost);
  JSON_parse := readLog
|}.

(** Two entries of the same day, one older than a week at the time
    [11 * oneDay + 100], the other not. *)
Definition straddlingEntries : list LogEntry :=
  [ mkLogEntry 1 (4 * oneDay + 200); mkLogEntry 2 (4 * oneDay + 50) ].

(** A browser with these two entries in its log. *)
Definition straddlingState : State :=
  mkState straddlingEntries None None (Some (mkStorage ∅ false false)) []
    (fun n => 1000 + Z.of_nat n) 0 true false None.

(** The browser of [loggedState] with a user who answers no. *)
Definition decliningState : State :=
  mkState fourEntries None None
    (Some (mkStorage {[ storageKey := JSON_stringify (Host := utcHost) fourEntries ]}
             false false))
    [] (fun n => 1000 + Z.of_nat n) 0 false false None.

(** A browser whose clock stands still. *)
Definition frozenState : State :=
  mkState [] None None (Some (mkStorage ∅ false false)) []
    (fun _ => 1000) 0 true false None.

(** A network on which every request is answered with status 200, and a
    cache storage that holds a cache of an earlier version. *)
Definition shellNetwork : string -> Outcome ServiceWorker.Response :=
  fun url => Returns (ServiceWorker.mkResponse 200 (String.append "page " url)).

Definition oldCaches : gmap string (gmap string ServiceWorker.Response) :=
  {[ "miccion-registro-cache-v0" :=
       {[ "/" := ServiceWorker.mkResponse 200 "old page" ]} ]}.

(** * Properties *)

(** ** The stable sort *)

Section SortFacts.
Context {A : Type} (cmp : A -> A -> Z).

Lemma insertBy_perm (x : A) (l : list A) : Permutation (insertBy cmp x l) (x :: l).
Proof.
  induction l as [|y l IH]; simpl; [reflexivity|].
  destruct (cmp x y <=? 0); [reflexivity|].
  rewrite IH. apply perm_swap.
Qed.

Lemma sortBy_perm (l : list A) : Permutation (sortBy cmp l) l.
Proof.
  induction l as [|x l IH]; simpl; [reflexivity|].
  rewrite insertBy_perm. now apply perm_skip.
Qed.

Lemma sortBy_length (l : list A) : List.length (sortBy cmp l) = List.length l.
Proof. apply Permutation_length, sortBy_perm. Qed.

Lemma sortBy_In (x : A) (l : list A) : In x (sortBy cmp l) <-> In x l.
Proof.
  split; apply Permutation_in; [|symmetry]; apply sortBy_perm.
Qed.

(** The comparator orders by a numeric key, as both comparators of the
    source do: [cmp a b <= 0] exactly when [a] may stand before [b]. *)
Variable before : A -> A -> Prop.
Hypothesis cmp_before : forall a b, cmp a b <= 0 <-> before a b.
Hypothesis before_total : forall a b, before a b \/ before b a.
Hypothesis before_trans : forall a b c, before a b -> before b c -> before a c.

Lemma insertBy_sorted (x : A) (l : list A) :
  StronglySorted before l -> StronglySorted before (insertBy cmp x l).
Proof.
  induction 1 as [|y l Hs IH Hall]; simpl.
  - constructor; constructor.
  - destruct (Z.leb_spec (cmp x y) 0) as [Hle|Hgt].
    + apply cmp_before in Hle.
      constructor; [constructor; assumption|].
      constructor; [assumption|].
      revert Hall. apply List.Forall_impl. intros z Hz. eauto.
    + assert (Hyx : before y x).
      { destruct (before_total x y) as [Hxy|Hyx]; [|assumption].
        apply cmp_before in Hxy. lia. }
      constructor; [assumption|].
      eapply Permutation_Forall; [symmetry; apply insertBy_perm|].
      constructor; assumption.
Qed.

Lemma sortBy_sorted (l : list A) : StronglySorted before (sortBy cmp l).
Proof.
  induction l as [|x l IH]; simpl; [constructor|].
  now apply insertBy_sorted.
Qed.
End SortFacts.

(** ** Rational arithmetic of the chart, reduced to integers *)

Lemma Qltb_div_oneDay (x n : Z) :
  Qltb (inject_Z x / inject_Z oneDay) (inject_Z n) = (x <? n * oneDay).
Proof.
  unfold Qltb. destruct (Z.ltb_spec x (n * oneDay)) as [H|H].
  - apply negb_true_iff. apply not_true_iff_false. rewrite Qle_bool_iff.
    apply Qlt_not_le. apply Qlt_shift_div_r; [reflexivity|].
    rewrite <- inject_Z_mult. rewrite <- Zlt_Qlt. exact H.
  - apply negb_false_iff. rewrite Qle_bool_iff.
    apply Qle_shift_div_l; [reflexivity|].
    rewrite <- inject_Z_mult. rewrite <- Zle_Qle. exact H.
Qed.

Lemma Math_ceil_fifth (m : Z) : Math_ceil (inject_Z m / 5) = - ((- m) / 5).
Proof.
  unfold Math_ceil, Qceiling, Qfloor, Qdiv, Qmult, Qinv, Qopp, inject_Z. simpl.
  now rewrite Z.mul_1_r.
Qed.

(** ** LogChart: scaling of the vertical axis *)

Lemma maxValue_upper (values : list Z) :
  0 <= maxValue values /\ Forall (fun v => v <= maxValue values) values.
Proof.
  induction values as [|v values [IH0 IH]]; simpl.
  - split; [lia|constructor].
  - split; [lia|]. constructor; [lia|].
    revert IH. apply List.Forall_impl. intros; lia.
Qed.

Lemma maxValue_attained (values : list Z) :
  values <> [] -> Forall (fun v => 0 <= v) values -> In (maxValue values) values.
Proof.
  induction values as [|v values IH]; [congruence|].
  intros _ Hpos. inversion Hpos as [|? ? Hv Hrest]; subst. simpl.
  destruct values as [|w values].
  - left. simpl. lia.
  - destruct (Z.max_spec v (maxValue (w :: values))) as [[_ ->]|[_ ->]].
    + right. apply IH; [discriminate|assumption].
    + now left.
Qed.

Lemma yAxisTop_small (values : list Z) :
  maxValue values <= 5 -> yAxisTop values = maxValue values.
Proof.
  intros H. unfold yAxisTop. cbv zeta.
  destruct (Z.leb_spec (maxValue values) 5); [reflexivity|lia].
Qed.

Lemma yAxisTop_large (values : list Z) :
  5 < maxValue values ->
  yAxisTop values mod 5 = 0 /\
  maxValue values <= yAxisTop values < maxValue values + 5.
Proof.
  intros H. unfold yAxisTop. cbv zeta.
  destruct (Z.leb_spec (maxValue values) 5); [lia|].
  rewrite Math_ceil_fifth.
  split; [apply Z.mod_mul; lia|].
  pose proof (Z.div_mod (- maxValue values) 5 ltac:(lia)).
  pose proof (Z.mod_pos_bound (- maxValue values) 5 ltac:(lia)).
  lia.
Qed.

Lemma Math_round_integer (z : Z) (q : Q) : q == inject_Z z -> Math_round q = z.
Proof.
  intros Hq. unfold Math_round. rewrite Hq.
  unfold Qfloor, Qplus, inject_Z. simpl.
  change ((z * 2 + 1) / 2 = z).
  pose proof (Z.div_mod (z * 2 + 1) 2 ltac:(lia)).
  pose proof (Z.mod_pos_bound (z * 2 + 1) 2 ltac:(lia)).
  lia.
Qed.

(** The labels drawn along the axis: the multiples of [top / numTicks] from
    0 up to the top of the axis, [numTicks + 1] of them. *)
Lemma yAxisLabels_positive (values : list Z) :
  0 < yAxisTop values ->
  yAxisLabels values =
    List.map (fun i => yAxisTop values / numTicks values * Z.of_nat i)
      (seq 0 (Z.to_nat (numTicks values) + 1)).
Proof.
  intros Hpos. unfold yAxisLabels. cbv zeta.
  destruct (Z.ltb_spec 0 (yAxisTop values)); [|lia].
  apply map_ext. intros i. apply Math_round_integer.
  assert (Hn : 0 < numTicks values /\ yAxisTop values mod numTicks values = 0).
  { unfold numTicks. cbv zeta.
    destruct (Z.ltb_spec 0 (yAxisTop values)); [|lia].
    destruct (Z.le_gt_cases (maxValue values) 5) as [Hs|Hl].
    - rewrite (yAxisTop_small _ Hs) in *.
      rewrite Z.min_l by lia. split; [lia|]. apply Z.mod_same; lia.
    - destruct (yAxisTop_large _ Hl) as [Hm Hb].
      rewrite Z.min_r by lia. split; [lia|exact Hm]. }
  destruct Hn as [Hn Hdiv].
  apply Z.div_exact in Hdiv; [|lia].
  rewrite inject_Z_mult. apply Qmult_comp; [|reflexivity].
  rewrite Hdiv at 1. rewrite inject_Z_mult.
  field. intros Hz.
  assert (numTicks values = 0); [|lia].
  apply (inject_Z_injective (numTicks values) 0). exact Hz.
Qed.

Example yAxisLabels_1_6_11 : yAxisLabels [1; 6; 11] = [0; 3; 6; 9; 12; 15].
Proof. vm_compute. reflexivity. Qed.

(** C3. For a non-empty sequence of per-day counts, [maxValue] is their
    maximum; the top of the axis is [maxValue] when that is at most 5 and
    otherwise the least multiple of 5 that is not below it; [numTicks] is
    min(top, 5) when the top is positive, the axis then carrying the zero
    line and [numTicks] evenly spaced marks above it, the last at the top;
    otherwise the axis carries the single label 0.  Counts 1,2,3 give top 3;
    counts 1,6,11 give top 15 and 5 ticks. *)
Theorem axis_scaling (values : list Z) :
  values <> [] ->
  Forall (fun v => 0 <= v) values ->
  let m := maxValue values in
  let top := yAxisTop values in
  (In m values /\ Forall (fun v => v <= m) values) /\
  (m <= 5 -> top = m) /\
  (5 < m -> top mod 5 = 0 /\ m <= top < m + 5) /\
  (0 < top ->
     numTicks values = Z.min top 5 /\
     yAxisLabels values =
       0 :: List.map (fun i => top / numTicks values * Z.of_nat i)
              (seq 1 (Z.to_nat (numTicks values)))) /\
  (top <= 0 -> numTicks values = 0 /\ yAxisLabels values = [0]) /\
  yAxisTop [1; 2; 3] = 3 /\
  (yAxisTop [1; 6; 11] = 15 /\ numTicks [1; 6; 11] = 5).
Proof.
  intros Hne Hpos m top. subst m top.
  split; [split; [now apply maxValue_attained|apply maxValue_upper]|].
  split; [apply yAxisTop_small|].
  split; [apply yAxisTop_large|].
  split.
  { intros H. split.
    - unfold numTicks. cbv zeta.
      destruct (Z.ltb_spec 0 (yAxisTop values)); [reflexivity|lia].
    - rewrite (yAxisLabels_positive values H), Nat.add_1_r.
      cbn [seq List.map]. rewrite Z.mul_0_r. reflexivity. }
  split.
  { intros H. unfold numTicks, yAxisLabels. cbv zeta.
    destruct (Z.ltb_spec 0 (yAxisTop values)); [lia|]. split; reflexivity. }
  split; [reflexivity|]. split; reflexivity.
Qed.

Lemma axis_scaling_witness :
  [1; 6; 11] <> [] /\
  Forall (fun v => 0 <= v) [1; 6; 11] /\
  yAxisTop [1; 6; 11] = 15 /\ numTicks [1; 6; 11] = 5.
Proof.
  assert (Hne : [1; 6; 11] <> []) by discriminate.
  assert (Hpos : Forall (fun v => 0 <= v) [1; 6; 11]).
  { repeat constructor; lia. }
  split; [exact Hne|]. split; [exact Hpos|].
  exact (proj2 (proj2 (proj2 (proj2 (proj2 (proj2
           (axis_scaling [1; 6; 11] Hne Hpos))))))).
Defined.

(** ** LogChart: the period filter *)

Lemma filteredEntries_week (now : Z) (entries : list LogEntry) :
  filteredEntries now week entries =
  List.filter (fun entry => now - timestamp entry <? 7 * oneDay) entries.
Proof.
  unfold filteredEntries. apply filter_ext. intros entry.
  apply (Qltb_div_oneDay (now - timestamp entry) 7).
Qed.

Lemma filteredEntries_month (now : Z) (entries : list LogEntry) :
  filteredEntries now month entries =
  List.filter (fun entry => now - timestamp entry <? 30 * oneDay) entries.
Proof.
  unfold filteredEntries. apply filter_ext. intros entry.
  apply (Qltb_div_oneDay (now - timestamp entry) 30).
Qed.

Lemma filteredEntries_all (now : Z) (entries : list LogEntry) :
  filteredEntries now all entries = entries.
Proof.
  unfold filteredEntries. induction entries as [|e entries IH]; simpl; congruence.
Qed.

(** C4. The filter keeps, in their order, the entries recorded less than
    7x24h before [now] for 'week', less than 30x24h before [now] for
    'month', and every entry for 'all'; entries at now-1d, now-6d and
    now-10d leave exactly the first two under 'week'. *)
Theorem period_filter (now : Z) (entries : list LogEntry) :
  filteredEntries now week entries =
    List.filter (fun entry => now - timestamp entry <? 7 * (24 * 60 * 60 * 1000))
      entries /\
  (forall entry, In entry (filteredEntries now week entries) <->
                 In entry entries /\ now - 7 * (24 * 60 * 60 * 1000) < timestamp entry) /\
  filteredEntries now month entries =
    List.filter (fun entry => now - timestamp entry <? 30 * (24 * 60 * 60 * 1000))
      entries /\
  (forall entry, In entry (filteredEntries now month entries) <->
                 In entry entries /\ now - 30 * (24 * 60 * 60 * 1000) < timestamp entry) /\
  filteredEntries now all entries = entries /\
  (forall i1 i2 i3,
      filteredEntries now week
        [mkLogEntry i1 (now - 1 * oneDay); mkLogEntry i2 (now - 6 * oneDay);
         mkLogEntry i3 (now - 10 * oneDay)] =
      [mkLogEntry i1 (now - 1 * oneDay); mkLogEntry i2 (now - 6 * oneDay)]).
Proof.
  split; [apply filteredEntries_week|].
  split.
  { intros entry. rewrite filteredEntries_week, filter_In, Z.ltb_lt.
    unfold oneDay. intuition lia. }
  split; [apply filteredEntries_month|].
  split.
  { intros entry. rewrite filteredEntries_month, filter_In, Z.ltb_lt.
    unfold oneDay. intuition lia. }
  split; [apply filteredEntries_all|].
  intros i1 i2 i3. rewrite filteredEntries_week. unfold oneDay. simpl.
  repeat match goal with
         | |- context [?a <? ?b] => destruct (Z.ltb_spec a b); try lia
         end.
  reflexivity.
Qed.

(** ** Dictionaries *)

Section ObjFacts.
Context {V : Type}.
Implicit Types (o : list (string * V)) (k : string) (v : V).

Lemma get_set_eq o k v : Obj.get (Obj.set o k v) k = Some v.
Proof.
  induction o as [|[k' v'] o IH]; simpl.
  - now rewrite String.eqb_refl.
  - destruct (String.eqb k' k) eqn:E; simpl; rewrite E; auto.
Qed.

Lemma get_set_ne o k k' v : k <> k' -> Obj.get (Obj.set o k v) k' = Obj.get o k'.
Proof.
  intros Hne. induction o as [|[k0 v0] o IH]; simpl.
  - destruct (String.eqb_spec k k'); congruence.
  - destruct (String.eqb_spec k0 k); simpl.
    + subst. destruct (String.eqb_spec k k'); congruence.
    + destruct (String.eqb_spec k0 k'); auto.
Qed.

Lemma get_None_keys o k : Obj.get o k = None <-> ~ In k (Obj.keys o).
Proof.
  induction o as [|[k' v'] o IH]; simpl; [tauto|].
  destruct (String.eqb_spec k' k); [split; [discriminate|tauto]|].
  rewrite IH. tauto.
Qed.

Lemma get_Some_In o k v : Obj.get o k = Some v -> In (k, v) o.
Proof.
  induction o as [|[k' v'] o IH]; simpl; [discriminate|].
  destruct (String.eqb_spec k' k); [|auto].
  intros [= ->]. subst. now left.
Qed.

Lemma In_get o k v : List.NoDup (Obj.keys o) -> In (k, v) o -> Obj.get o k = Some v.
Proof.
  induction o as [|[k' v'] o IH]; simpl; [tauto|].
  intros Hnd [Heq|Hin].
  - injection Heq as -> ->. now rewrite String.eqb_refl.
  - apply NoDup_cons_iff in Hnd as [Hk Hnd].
    destruct (String.eqb_spec k' k); [|auto].
    subst. exfalso. apply Hk. apply (in_map fst) in Hin. exact Hin.
Qed.

Lemma set_Some_keys o k v v' :
  Obj.get o k = Some v' -> Obj.keys (Obj.set o k v) = Obj.keys o.
Proof.
  induction o as [|[k0 v0] o IH]; simpl; [discriminate|].
  destruct (String.eqb_spec k0 k); [reflexivity|].
  intros H. simpl. f_equal. auto.
Qed.

Lemma set_None o k v : Obj.get o k = None -> Obj.set o k v = o ++ [(k, v)].
Proof.
  induction o as [|[k0 v0] o IH]; simpl; [reflexivity|].
  destruct (String.eqb_spec k0 k); [discriminate|].
  intros H. f_equal. auto.
Qed.

(** *** The reducers' update *)

Lemma upsert_get_eq (init : V) (f : V -> V) o k :
  Obj.get (upsert init f o k) k =
  Some (f (match Obj.get o k with Some c => c | None => init end)).
Proof.
  unfold upsert. destruct (Obj.get o k) as [c|] eqn:E.
  - rewrite E. apply get_set_eq.
  - rewrite get_set_eq. apply get_set_eq.
Qed.

Lemma upsert_get_ne (init : V) (f : V -> V) o k k' :
  k <> k' -> Obj.get (upsert init f o k) k' = Obj.get o k'.
Proof.
  intros Hne. unfold upsert. destruct (Obj.get o k) as [c|] eqn:E.
  - rewrite E. now apply get_set_ne.
  - rewrite get_set_eq. rewrite !get_set_ne by assumption. reflexivity.
Qed.

Lemma upsert_keys (init : V) (f : V -> V) o k :
  Obj.keys (upsert init f o k) =
  match Obj.get o k with
  | Some _ => Obj.keys o
  | None => Obj.keys o ++ [k]
  end.
Proof.
  unfold upsert. destruct (Obj.get o k) as [c|] eqn:E.
  - rewrite E. now apply set_Some_keys with (v' := c).
  - rewrite get_set_eq.
    rewrite set_Some_keys with (v' := init) by apply get_set_eq.
    rewrite set_None by assumption.
    unfold Obj.keys. now rewrite map_app.
Qed.

Lemma upsert_NoDup (init : V) (f : V -> V) o k :
  List.NoDup (Obj.keys o) -> List.NoDup (Obj.keys (upsert init f o k)).
Proof.
  intros Hnd. rewrite upsert_keys. destruct (Obj.get o k) eqn:E; [assumption|].
  apply get_None_keys in E.
  apply Permutation_NoDup with (l := k :: Obj.keys o).
  - apply Permutation_cons_append.
  - now constructor.
Qed.

Context {A : Type} (key : A -> string) (init : A -> V) (f : A -> V -> V).

Let step (acc : list (string * V)) (x : A) : list (string * V) :=
  upsert (init x) (f x) acc (key x).

Lemma fold_upsert_get (l : list A) (acc : list (string * V)) (k : string) :
  Obj.get (fold_left step l acc) k =
  fold_left (upsert_at key init f k) l (Obj.get acc k).
Proof.
  revert acc. induction l as [|x l IH]; intros acc; simpl; [reflexivity|].
  rewrite IH. f_equal. unfold step, upsert_at.
  destruct (String.eqb_spec (key x) k) as [<-|Hne].
  - apply upsert_get_eq.
  - now apply upsert_get_ne.
Qed.

Lemma fold_upsert_NoDup (l : list A) (acc : list (string * V)) :
  List.NoDup (Obj.keys acc) -> List.NoDup (Obj.keys (fold_left step l acc)).
Proof.
  revert acc. induction l as [|x l IH]; intros acc Hnd; simpl; [assumption|].
  apply IH. now apply upsert_NoDup.
Qed.
End ObjFacts.

(** ** LogList: grouping by day *)

Section Grouping.
Context {host : Host}.

Lemma groupedEntries_fold (entries : list LogEntry) :
  groupedEntries entries =
  fold_left
    (fun acc entry => upsert [] (fun bucket => bucket ++ [entry]) acc (dayOf entry))
    entries [].
Proof. reflexivity. Qed.

Lemma bucket_fold (k : string) (l : list LogEntry) (ov : option (list LogEntry)) :
  fold_left
    (upsert_at dayOf (fun _ => []) (fun entry bucket => bucket ++ [entry]) k) l ov =
  match ov, List.filter (onDay k) l with
  | None, [] => None
  | None, b => Some b
  | Some b0, b => Some (b0 ++ b)
  end.
Proof.
  revert ov. induction l as [|x l IH]; intros ov; simpl.
  - destruct ov; [now rewrite app_nil_r|reflexivity].
  - rewrite IH. unfold upsert_at, onDay.
    destruct (String.eqb (dayOf x) k).
    + destruct ov as [b0|]; [now rewrite <- app_assoc|reflexivity].
    + reflexivity.
Qed.

Lemma groupedEntries_get (entries : list LogEntry) (k : string) :
  Obj.get (groupedEntries entries) k =
  match List.filter (onDay k) entries with
  | [] => None
  | b => Some b
  end.
Proof.
  rewrite groupedEntries_fold.
  rewrite (fold_upsert_get dayOf (fun _ => []) (fun entry bucket => bucket ++ [entry])).
  rewrite bucket_fold. reflexivity.
Qed.

Lemma groupedEntries_NoDup (entries : list LogEntry) :
  List.NoDup (Obj.keys (groupedEntries entries)).
Proof.
  rewrite groupedEntries_fold.
  apply (fold_upsert_NoDup dayOf (fun _ => []) (fun entry bucket => bucket ++ [entry])).
  constructor.
Qed.

Lemma groupedEntries_In (entries : list LogEntry) (k : string) (b : list LogEntry) :
  In (k, b) (groupedEntries entries) <->
  b = List.filter (onDay k) entries /\ b <> [].
Proof.
  split.
  - intros Hin. apply In_get in Hin; [|apply groupedEntries_NoDup].
    rewrite groupedEntries_get in Hin.
    destruct (List.filter (onDay k) entries); [discriminate|].
    injection Hin as <-. split; [reflexivity|discriminate].
  - intros [-> Hne]. apply get_Some_In. rewrite groupedEntries_get.
    destruct (List.filter (onDay k) entries); [congruence|reflexivity].
Qed.

Lemma bucketOf_filter (entries : list LogEntry) (k : string) :
  bucketOf (groupedEntries entries) k = List.filter (onDay k) entries.
Proof.
  unfold bucketOf. rewrite groupedEntries_get.
  now destruct (List.filter (onDay k) entries).
Qed.

Lemma groupedEntries_keys (entries : list LogEntry) (k : string) :
  In k (Obj.keys (groupedEntries entries)) <->
  exists entry, In entry entries /\ dayOf entry = k.
Proof.
  split.
  - intros Hin. destruct (Obj.get (groupedEntries entries) k) as [b|] eqn:E.
    + rewrite groupedEntries_get in E.
      destruct (List.filter (onDay k) entries) as [|entry rest] eqn:F; [discriminate|].
      exists entry.
      assert (Hf : In entry (List.filter (onDay k) entries)) by (rewrite F; now left).
      apply filter_In in Hf as [Hf1 Hf2].
      split; [assumption|]. now apply String.eqb_eq.
    + apply get_None_keys in E. contradiction.
  - intros (entry & Hin & Hk).
    destruct (in_dec string_dec k (Obj.keys (groupedEntries entries))) as [|Hn];
      [assumption|].
    apply get_None_keys in Hn. rewrite groupedEntries_get in Hn.
    assert (Hf : In entry (List.filter (onDay k) entries)).
    { apply filter_In. split; [assumption|]. now apply String.eqb_eq. }
    destruct (List.filter (onDay k) entries); [destruct Hf|discriminate].
Qed.

Lemma concat_set (o : list (string * list LogEntry)) (k : string)
    (b x : list LogEntry) :
  Obj.get o k = Some b ->
  Permutation (concat (List.map snd (Obj.set o k (b ++ x))))
    (concat (List.map snd o) ++ x).
Proof.
  induction o as [|[k0 b0] o IH]; simpl; [discriminate|].
  destruct (String.eqb_spec k0 k).
  - intros [= ->]. simpl. rewrite <- !app_assoc.
    apply Permutation_app_head. apply Permutation_app_comm.
  - intros H. simpl. rewrite <- app_assoc. apply Permutation_app_head. auto.
Qed.

Lemma groupedEntries_perm (entries : list LogEntry) :
  Permutation (concat (List.map snd (groupedEntries entries))) entries.
Proof.
  rewrite groupedEntries_fold.
  enough (H : forall l acc,
             Permutation
               (concat (List.map snd
                  (fold_left
                     (fun acc entry =>
                        upsert [] (fun bucket => bucket ++ [entry]) acc (dayOf entry))
                     l acc)))
               (concat (List.map snd acc) ++ l)) by apply (H entries []).
  induction l as [|x l IH]; intros acc; simpl.
  - now rewrite app_nil_r.
  - rewrite IH. change (x :: l) with ([x] ++ l). rewrite app_assoc.
    apply Permutation_app_tail.
    unfold upsert. destruct (Obj.get acc (dayOf x)) as [b|] eqn:E.
    + rewrite E. now apply concat_set.
    + rewrite get_set_eq.
      rewrite (concat_set _ _ [] [x]) by apply get_set_eq.
      rewrite set_None by assumption.
      rewrite map_app, concat_app. simpl. now rewrite app_nil_r.
Qed.
End Grouping.

(** ** LogList: what is rendered *)

Lemma StronglySorted_map_distinct {A B : Type} (P : A -> A -> Prop)
    (Q : B -> B -> Prop) (f : A -> B) (l : list A) :
  StronglySorted P l ->
  List.NoDup l ->
  (forall a b, In a l -> In b l -> a <> b -> P a b -> Q (f a) (f b)) ->
  StronglySorted Q (List.map f l).
Proof.
  induction 1 as [|a l Hs IH Hall]; intros Hnd HPQ; simpl; [constructor|].
  apply NoDup_cons_iff in Hnd as [Ha Hnd].
  constructor.
  - apply IH; [assumption|]. intros x y Hx Hy. apply HPQ; now right.
  - apply List.Forall_forall. intros y Hy. apply in_map_iff in Hy as (b & <- & Hb).
    apply HPQ; [now left|now right|congruence|].
    rewrite List.Forall_forall in Hall. now apply Hall.
Qed.

Lemma flat_map_perm_pointwise {A B : Type} (f g : A -> list B) (l : list A) :
  (forall a, Permutation (f a) (g a)) -> Permutation (flat_map f l) (flat_map g l).
Proof.
  intros H. induction l as [|a l IH]; simpl; [reflexivity|].
  now apply Permutation_app.
Qed.

Section LogListFacts.
Context {host : Host}.

Let newestFirst (a b : LogEntry) : Z := timestamp b - timestamp a.

Lemma newestFirst_sorted (l : list LogEntry) :
  StronglySorted (fun a b => timestamp b <= timestamp a) (sortBy newestFirst l).
Proof.
  apply sortBy_sorted; unfold newestFirst; intros; lia.
Qed.

Lemma bucketOf_keys (g : list (string * list LogEntry)) :
  List.NoDup (Obj.keys g) -> List.map (bucketOf g) (Obj.keys g) = List.map snd g.
Proof.
  induction g as [|[k b] g IH]; intros Hnd; simpl; [reflexivity|].
  apply NoDup_cons_iff in Hnd as [Hk Hnd]. f_equal.
  - unfold bucketOf. simpl. now rewrite String.eqb_refl.
  - rewrite <- IH by assumption. apply map_ext_in. intros k' Hk'.
    unfold bucketOf. simpl.
    destruct (String.eqb_spec k k'); [subst; contradiction|reflexivity].
Qed.

Lemma LogList_days (entries : list LogEntry) :
  List.map fst (LogList entries) = sortedDates (groupedEntries entries).
Proof. unfold LogList. rewrite map_map. apply map_id. Qed.

Lemma sortedDates_perm (entries : list LogEntry) :
  Permutation (sortedDates (groupedEntries entries))
    (Obj.keys (groupedEntries entries)).
Proof. apply sortBy_perm. Qed.

Lemma LogList_In (entries : list LogEntry) (day : string) (bucket : list LogEntry) :
  In (day, bucket) (LogList entries) <->
  (exists entry, In entry entries /\ dayOf entry = day) /\
  bucket = sortBy newestFirst (List.filter (onDay day) entries).
Proof.
  unfold LogList. rewrite in_map_iff. rewrite <- groupedEntries_keys. split.
  - intros (k & [= <- <-] & Hk). rewrite bucketOf_filter. split; [|reflexivity].
    eapply Permutation_in; [apply sortedDates_perm|exact Hk].
  - intros [Hk ->]. exists day. rewrite bucketOf_filter. split; [reflexivity|].
    eapply Permutation_in; [symmetry; apply sortedDates_perm|exact Hk].
Qed.

Lemma LogList_perm (entries : list LogEntry) :
  Permutation (concat (List.map snd (LogList entries))) entries.
Proof.
  unfold LogList. rewrite map_map. simpl. rewrite <- flat_map_concat_map.
  rewrite (flat_map_perm_pointwise _ (bucketOf (groupedEntries entries)))
    by (intros; apply sortBy_perm).
  rewrite sortedDates_perm.
  rewrite flat_map_concat_map, bucketOf_keys by apply groupedEntries_NoDup.
  apply groupedEntries_perm.
Qed.

Lemma firstTimestamp_member (entries : list LogEntry) (k : string) :
  In k (Obj.keys (groupedEntries entries)) ->
  exists entry, In entry entries /\ dayOf entry = k /\
                firstTimestamp (groupedEntries entries) k = timestamp entry.
Proof.
  intros Hk. unfold firstTimestamp. rewrite groupedEntries_get.
  destruct (List.filter (onDay k) entries) as [|entry rest] eqn:F.
  - apply groupedEntries_keys in Hk as (entry & Hin & Hd).
    assert (Hf : In entry (List.filter (onDay k) entries)).
    { apply filter_In. split; [assumption|]. now apply String.eqb_eq. }
    rewrite F in Hf. destruct Hf.
  - exists entry.
    assert (Hf : In entry (List.filter (onDay k) entries)) by (rewrite F; now left).
    apply filter_In in Hf as [Hin Hd]. apply String.eqb_eq in Hd. auto.
Qed.

Hypothesis calendar : days_are_intervals.

Lemma days_apart (f1 f2 x y : LogEntry) :
  dayOf f1 = dayOf x -> dayOf f2 = dayOf y -> dayOf f1 <> dayOf f2 ->
  timestamp f2 <= timestamp f1 -> timestamp y < timestamp x.
Proof.
  unfold dayOf, formatTimestamp. intros H1 H2 Hne Hle.
  destruct (Z.lt_ge_cases (timestamp y) (timestamp x)) as [|Hxy]; [assumption|].
  exfalso. destruct (Z.le_gt_cases (timestamp f1) (timestamp y)) as [Hhi|Hlo].
  - apply Hne. symmetry in H2.
    apply (calendar (timestamp f2) (timestamp f1) (timestamp y)); [lia|congruence].
  - apply Hne.
    pose proof (calendar (timestamp x) (timestamp y) (timestamp f1)
                  ltac:(lia) ltac:(congruence)).
    congruence.
Qed.

Lemma LogList_sorted (entries : list LogEntry) :
  StronglySorted
    (fun s1 s2 => forall e1 e2, In e1 (snd s1) -> In e2 (snd s2) ->
                                timestamp e2 < timestamp e1)
    (LogList entries).
Proof.
  unfold LogList.
  apply StronglySorted_map_distinct with
    (P := fun a b => firstTimestamp (groupedEntries entries) b
                     <= firstTimestamp (groupedEntries entries) a).
  - apply sortBy_sorted; intros; lia.
  - eapply Permutation_NoDup; [symmetry; apply sortedDates_perm|].
    apply groupedEntries_NoDup.
  - intros a b Ha Hb Hab Hle e1 e2. simpl. rewrite !bucketOf_filter, !sortBy_In.
    intros [_ H1]%filter_In [_ H2]%filter_In.
    apply String.eqb_eq in H1, H2.
    apply (Permutation_in _ (sortedDates_perm entries)) in Ha, Hb.
    destruct (firstTimestamp_member _ _ Ha) as (fa & _ & Hfa & Ea).
    destruct (firstTimestamp_member _ _ Hb) as (fb & _ & Hfb & Eb).
    rewrite Ea, Eb in Hle.
    apply (days_apart fa fb); congruence.
Qed.
End LogListFacts.

(** ** The concrete host satisfies the assumptions *)

Lemma number_injective (a b : Z) : number a = number b -> a = b.
Proof.
  unfold number. intros H.
  apply (f_equal NilEmpty.int_of_string) in H.
  rewrite !NilEmpty.isi in H. injection H as H.
  apply (f_equal Z.of_int) in H. now rewrite !DecimalZ.of_to in H.
Qed.

Lemma utcHost_days_are_intervals : days_are_intervals (host := utcHost).
Proof.
  intros t1 t2 t3 [H12 H23] H. simpl in *.
  injection H as H. apply number_injective in H.
  do 2 f_equal.
  assert (Hd : 0 < oneDay) by reflexivity.
  pose proof (Z.div_le_mono t1 t2 oneDay Hd H12).
  pose proof (Z.div_le_mono t2 t3 oneDay Hd H23).
  lia.
Qed.

Lemma utcHost_json_empty_array : json_empty_array (host := utcHost).
Proof. split; reflexivity. Qed.

(** ** LogList: the partition into days *)

(** C2. The sections rendered by LogList partition the entries by day: the
    headings are pairwise distinct, every bucket holds only entries of its
    own day, every entry sits in the bucket of its day, and the buckets
    together are a permutation of the entries.  Each bucket starts with its
    latest entry.  The sections are sorted, descending, by the timestamp of
    the entry that came first in each bucket when the buckets were filled;
    calendar days being intervals of time, that is the order of the
    timestamps of the entries the buckets start with, and it does not
    depend on the text of the headings. *)
Theorem group_by_day_partition (host : Host) (entries : list LogEntry) :
  let sections := LogList entries in
  List.NoDup (List.map fst sections) /\
  (forall day bucket entry,
      In (day, bucket) sections -> In entry bucket -> dayOf entry = day) /\
  (forall entry, In entry entries ->
      exists bucket, In (dayOf entry, bucket) sections /\ In entry bucket) /\
  Permutation (concat (List.map snd sections)) entries /\
  (forall day bucket, In (day, bucket) sections ->
      exists first rest,
        bucket = first :: rest /\
        Forall (fun entry => timestamp entry <= timestamp first) rest) /\
  StronglySorted
    (fun s1 s2 =>
       firstTimestamp (groupedEntries entries) (fst s2)
       <= firstTimestamp (groupedEntries entries) (fst s1))
    sections /\
  (days_are_intervals ->
   StronglySorted
     (fun s1 s2 => forall e1 e2,
          hd_error (snd s1) = Some e1 -> hd_error (snd s2) = Some e2 ->
          timestamp e2 < timestamp e1)
     sections).
Proof.
  intros sections. subst sections.
  assert (Hnd : List.NoDup (sortedDates (groupedEntries entries))).
  { eapply Permutation_NoDup; [symmetry; apply sortedDates_perm|].
    apply groupedEntries_NoDup. }
  split; [now rewrite LogList_days|].
  split.
  { intros day bucket entry [_ ->]%LogList_In [_ H]%sortBy_In%filter_In.
    now apply String.eqb_eq. }
  split.
  { intros entry Hin. eexists. split.
    - apply LogList_In. split; [now exists entry|reflexivity].
    - apply sortBy_In, filter_In. split; [assumption|]. apply String.eqb_refl. }
  split; [apply LogList_perm|].
  split.
  { intros day bucket [(entry & Hin & Hday) ->]%LogList_In.
    pose proof (newestFirst_sorted (List.filter (onDay day) entries)) as Hs.
    assert (Hm : In entry (sortBy (fun a b => timestamp b - timestamp a)
                             (List.filter (onDay day) entries))).
    { apply sortBy_In, filter_In. split; [assumption|]. now apply String.eqb_eq. }
    destruct (sortBy _ (List.filter (onDay day) entries)) as [|first rest];
      [destruct Hm|].
    exists first, rest. split; [reflexivity|].
    now apply StronglySorted_inv in Hs as [_ Hs]. }
  split.
  { unfold LogList.
    apply StronglySorted_map_distinct with
      (P := fun a b => firstTimestamp (groupedEntries entries) b
                       <= firstTimestamp (groupedEntries entries) a);
      [apply sortBy_sorted; intros; lia|exact Hnd|].
    intros a b _ _ _ H. exact H. }
  intros calendar.
  pose proof (LogList_sorted calendar entries) as Hs.
  induction Hs as [|s l Hs IH Hall]; constructor; [assumption|].
  revert Hall. apply List.Forall_impl. intros s2 H e1 e2 H1 H2.
  apply H.
  - destruct (snd s); [discriminate|]. injection H1 as ->. now left.
  - destruct (snd s2); [discriminate|]. injection H2 as ->. now left.
Qed.

(** The sections come newest day first, which is neither the ascending nor
    the descending order of the headings read as text. *)
Example LogList_fourEntries :
  LogList (host := utcHost) fourEntries =
  [ ("day 11", [mkLogEntry 2 (11 * oneDay + 7)]);
    ("day 10", [mkLogEntry 3 (10 * oneDay + 1)]);
    ("day 9", [mkLogEntry 4 (9 * oneDay + 50); mkLogEntry 1 (9 * oneDay + 5)]) ].
Proof. vm_compute. reflexivity. Qed.

Lemma group_by_day_partition_witness :
  days_are_intervals (host := utcHost) /\
  StronglySorted
    (fun s1 s2 => forall e1 e2,
         hd_error (snd s1) = Some e1 -> hd_error (snd s2) = Some e2 ->
         timestamp e2 < timestamp e1)
    (LogList (host := utcHost) fourEntries).
Proof.
  split; [exact utcHost_days_are_intervals|].
  exact (proj2 (proj2 (proj2 (proj2 (proj2 (proj2
           (group_by_day_partition utcHost fourEntries))))))
           utcHost_days_are_intervals).
Defined.

(** ** LogChart: one bar per day, and the drill-down *)

Lemma filter_sublist {A : Type} (f : A -> bool) (l : list A) :
  sublist (List.filter f l) l.
Proof.
  induction l as [|x l IH]; simpl; [constructor|].
  destruct (f x); now constructor.
Qed.

Lemma filter_split_perm {A : Type} (f : A -> bool) (l : list A) :
  Permutation l (List.filter f l ++ List.filter (fun x => negb (f x)) l).
Proof.
  induction l as [|x l IH]; simpl; [reflexivity|].
  destruct (f x); simpl.
  - now apply perm_skip.
  - rewrite <- Permutation_middle. now apply perm_skip.
Qed.

Lemma filter_perm {A : Type} (f : A -> bool) (l l' : list A) :
  Permutation l l' -> Permutation (List.filter f l) (List.filter f l').
Proof.
  induction 1 as [|x l l' _ IH|x y l|l l' l'' _ IH1 _ IH2]; simpl.
  - reflexivity.
  - destruct (f x); [now apply perm_skip|assumption].
  - destruct (f x), (f y); try reflexivity. apply perm_swap.
  - now transitivity (List.filter f l').
Qed.

Section ChartFacts.
Context {host : Host}.

Lemma dayEntriesOf_filter (entries : list LogEntry) (k : string) :
  dayEntriesOf entries k = List.filter (inBin k) entries.
Proof. reflexivity. Qed.

Lemma countsByDay_fold (filtered : list LogEntry) :
  countsByDay filtered =
  fold_left
    (fun acc entry =>
       upsert (mkDayCount 0 (setHours0 (timestamp entry)))
         (fun c => mkDayCount (count c + 1) (date c)) acc (binOf entry))
    filtered [].
Proof. reflexivity. Qed.

Lemma count_fold (k : string) (l : list LogEntry) (ov : option DayCount) :
  fold_left
    (upsert_at binOf (fun entry => mkDayCount 0 (setHours0 (timestamp entry)))
       (fun _ c => mkDayCount (count c + 1) (date c)) k) l ov =
  match ov, List.filter (inBin k) l with
  | None, [] => None
  | None, entry :: rest =>
      Some (mkDayCount (Z.of_nat (List.length (entry :: rest)))
              (setHours0 (timestamp entry)))
  | Some c, b => Some (mkDayCount (count c + Z.of_nat (List.length b)) (date c))
  end.
Proof.
  revert ov. induction l as [|x l IH]; intros ov; simpl.
  - destruct ov as [[n d]|]; [|reflexivity]. simpl. do 2 f_equal. lia.
  - rewrite IH. unfold upsert_at, inBin.
    destruct (String.eqb (binOf x) k); [|reflexivity].
    destruct ov as [c|]; simpl; do 2 f_equal; lia.
Qed.

Lemma countsByDay_get (filtered : list LogEntry) (k : string) :
  Obj.get (countsByDay filtered) k =
  match List.filter (inBin k) filtered with
  | [] => None
  | entry :: rest =>
      Some (mkDayCount (Z.of_nat (List.length (entry :: rest)))
              (setHours0 (timestamp entry)))
  end.
Proof.
  rewrite countsByDay_fold.
  rewrite (fold_upsert_get binOf
             (fun entry => mkDayCount 0 (setHours0 (timestamp entry)))
             (fun _ c => mkDayCount (count c + 1) (date c))).
  rewrite count_fold. reflexivity.
Qed.

Lemma countsByDay_NoDup (filtered : list LogEntry) :
  List.NoDup (Obj.keys (countsByDay filtered)).
Proof.
  rewrite countsByDay_fold.
  apply (fold_upsert_NoDup binOf
           (fun entry => mkDayCount 0 (setHours0 (timestamp entry)))
           (fun _ c => mkDayCount (count c + 1) (date c))).
  constructor.
Qed.

(** Whatever the period, the value of a bar is the number of entries of
    that day that passed the filter. *)
Lemma chartData_value (now : Z) (period : ChartPeriod) (entries : list LogEntry)
    (bar : Bar) :
  In bar (chartData now period entries) ->
  value bar =
    Z.of_nat (List.length
                (dayEntriesOf (filteredEntries now period entries) (fullDate bar))) /\
  0 < value bar.
Proof.
  unfold chartData. rewrite sortBy_In, in_map_iff.
  intros ([k c] & <- & Hin). simpl. unfold Obj.entries in Hin.
  apply In_get in Hin; [|apply countsByDay_NoDup].
  rewrite countsByDay_get in Hin. rewrite dayEntriesOf_filter.
  destruct (List.filter (inBin k) (filteredEntries now period entries));
    [discriminate|].
  injection Hin as <-. simpl. split; lia.
Qed.

(** C5. The drill-down stores, as the data of the details view, the
    entries of the log whose day key is the selected one: a subsequence of
    the log that holds every entry of that day, as often as the log does,
    and no entry of another day, whatever the order of the log.  The
    details view lists these same entries. *)
Theorem drill_down_exact (s : State) (dateString : string) :
  let dayEntries := dayEntriesOf (log s) dateString in
  handleBarClick dateString s =
    (Returns tt, with_selectedDayData (Some dayEntries) s) /\
  sublist dayEntries (log s) /\
  (forall entry, In entry dayEntries <->
                 In entry (log s) /\ dateStringOf (timestamp entry) = dateString) /\
  (exists others,
      Permutation (log s) (dayEntries ++ others) /\
      Forall (fun entry => dateStringOf (timestamp entry) <> dateString) others) /\
  (forall reordered, Permutation (log s) reordered ->
      Permutation dayEntries (dayEntriesOf reordered dateString)) /\
  Permutation (DetailsModal dayEntries) dayEntries.
Proof.
  intros dayEntries. subst dayEntries.
  split; [reflexivity|].
  split; [apply filter_sublist|].
  split.
  { intros entry. unfold dayEntriesOf. rewrite filter_In, String.eqb_eq. tauto. }
  split.
  { exists (List.filter (fun entry => negb (inBin dateString entry)) (log s)).
    split; [apply filter_split_perm|].
    apply List.Forall_forall. intros entry [_ H]%filter_In.
    apply negb_true_iff, String.eqb_neq in H. exact H. }
  split; [intros reordered; apply filter_perm|].
  apply sortBy_perm.
Qed.

(** C9. With the period 'all', the number a bar displays is the number of
    rows the details view lists after a click on that bar. *)
Theorem bar_value_is_detail_length (now : Z) (s : State) (bar : Bar) :
  In bar (chartData now all (log s)) ->
  exists dayData,
    selectedDayData (snd (handleBarClick (fullDate bar) s)) = Some dayData /\
    dayData = dayEntriesOf (log s) (fullDate bar) /\
    Z.of_nat (List.length dayData) = value bar /\
    Z.of_nat (List.length (DetailsModal dayData)) = value bar.
Proof.
  intros Hbar. exists (dayEntriesOf (log s) (fullDate bar)).
  apply chartData_value in Hbar as [Hv _].
  rewrite filteredEntries_all in Hv.
  split; [reflexivity|]. split; [reflexivity|].
  unfold DetailsModal. rewrite sortBy_length. now split.
Qed.
End ChartFacts.

(** ** useLocalStorage: the persistent store *)

(** Evaluate a computation on a state, using what is known of the state. *)
Ltac js_unfold :=
  unfold with_log, with_toastMessage, with_selectedDayData, with_window,
    with_console, with_ticks, with_clipboard in *;
  cbn in *.

Ltac js_known :=
  repeat (js_unfold;
          match goal with
          | H : window ?s = _ |- context [window ?s] => rewrite H
          | H : accessDenied ?st = _ |- context [accessDenied ?st] => rewrite H
          | H : quotaExceeded ?st = _ |- context [quotaExceeded ?st] => rewrite H
          | H : confirmReply ?s = _ |- context [confirmReply ?s] => rewrite H
          | H : clipboardRejects ?s = _ |- context [clipboardRejects ?s] => rewrite H
          end).

(** The same, with a case split wherever the state decides the outcome. *)
Ltac js_cases :=
  repeat (js_known;
          match goal with
          | |- context [match window ?s with _ => _ end] =>
              destruct (window s) eqn:?
          | |- context [if accessDenied ?st then _ else _] =>
              destruct (accessDenied st) eqn:?
          | |- context [if quotaExceeded ?st then _ else _] =>
              destruct (quotaExceeded st) eqn:?
          | |- context [match items ?st !! ?k with _ => _ end] =>
              destruct (items st !! k) eqn:?
          | |- context [if truthy ?text then _ else _] =>
              destruct (truthy text) eqn:?
          | |- context [match JSON_parse ?text with _ => _ end] =>
              destruct (JSON_parse text) eqn:?
          end).

Section StoreFacts.
Context {host : Host}.

Lemma setValue_returns (key : string) (value : SetStateAction) (s : State) :
  fst (setValue key value s) = Returns tt.
Proof.
  unfold setValue, try_catch.
  match goal with
  | |- context [match ?body s with _ => _ end] =>
      destruct (body s) as [[[]|error] s']
  end; reflexivity.
Qed.

Lemma setValue_Updater_log (key : string) (f : list LogEntry -> M (list LogEntry))
    (s s1 : State) (v : list LogEntry) :
  f (log s) s = (Returns v, s1) ->
  log (snd (setValue key (Updater f) s)) = v.
Proof.
  intros Hf. unfold setValue, try_catch, bind, storedValue. rewrite Hf.
  unfold setStoredValue, typeof_window_undefined, localStorage_setItem.
  js_cases; reflexivity.
Qed.

Lemma setValue_NewValue_log (key : string) (v : list LogEntry) (s : State) :
  log (snd (setValue key (NewValue v) s)) = v.
Proof.
  unfold setValue, try_catch, bind, ret, setStoredValue, typeof_window_undefined,
    localStorage_setItem.
  js_cases; reflexivity.
Qed.

Lemma setValue_NewValue_written (key : string) (v : list LogEntry) (s : State)
    (st : Storage) :
  window s = Some st -> accessDenied st = false -> quotaExceeded st = false ->
  window (snd (setValue key (NewValue v) s)) =
  Some (mkStorage (<[key := JSON_stringify v]> (items st)) false false).
Proof.
  intros Hw Ha Hq.
  unfold setValue, try_catch, bind, ret, setStoredValue, typeof_window_undefined,
    localStorage_setItem.
  js_known. reflexivity.
Qed.

Lemma load_cases (key : string) (initialValue : list LogEntry) (s : State) :
  fst (useLocalStorage_init key initialValue s) =
  Returns
    match window s with
    | None => initialValue
    | Some st =>
        if accessDenied st then initialValue
        else match items st !! key with
             | None => initialValue
             | Some text =>
                 if truthy text
                 then match JSON_parse text with
                      | Returns v => v
                      | Throws _ => initialValue
                      end
                 else initialValue
             end
    end.
Proof.
  unfold useLocalStorage_init, bind, try_catch, typeof_window_undefined,
    localStorage_getItem, lift, ret, console_error.
  js_cases; reflexivity.
Qed.

Lemma load_keeps_state (key : string) (initialValue : list LogEntry) (s : State) :
  log (snd (useLocalStorage_init key initialValue s)) = log s /\
  window (snd (useLocalStorage_init key initialValue s)) = window s.
Proof.
  unfold useLocalStorage_init, bind, try_catch, typeof_window_undefined,
    localStorage_getItem, lift, ret, console_error.
  js_cases; split; cbn; congruence.
Qed.

(** C6. Neither operation of the store lets an error reach its caller.
    The initial load returns the parsed stored text, and the initial value
    when there is no window, when the storage cannot be accessed, when the
    key is absent and when the text does not parse.  A save always
    returns, and the value in memory is the new one whether or not the
    storage took it. *)
Theorem store_never_throws (key : string) (initialValue : list LogEntry) (s : State) :
  let loaded := fst (useLocalStorage_init key initialValue s) in
  (exists v, loaded = Returns v) /\
  (window s = None -> loaded = Returns initialValue) /\
  (forall st, window s = Some st -> accessDenied st = true ->
      loaded = Returns initialValue) /\
  (forall st, window s = Some st -> accessDenied st = false ->
      items st !! key = None -> loaded = Returns initialValue) /\
  (forall st, window s = Some st -> accessDenied st = false ->
      items st !! key = Some EmptyString -> loaded = Returns initialValue) /\
  (forall st text error, window s = Some st -> accessDenied st = false ->
      items st !! key = Some text -> JSON_parse text = Throws error ->
      loaded = Returns initialValue) /\
  (forall st text v, window s = Some st -> accessDenied st = false ->
      items st !! key = Some text -> truthy text = true ->
      JSON_parse text = Returns v -> loaded = Returns v) /\
  (forall value, fst (setValue key value s) = Returns tt) /\
  (forall v, log (snd (setValue key (NewValue v) s)) = v) /\
  (forall f v s1, f (log s) s = (Returns v, s1) ->
      log (snd (setValue key (Updater f) s)) = v) /\
  (forall v st, window s = Some st -> accessDenied st = false ->
      quotaExceeded st = false ->
      exists st', window (snd (setValue key (NewValue v) s)) = Some st' /\
                  items st' !! key = Some (JSON_stringify v)).
Proof.
  intros loaded. subst loaded. rewrite load_cases.
  split; [eexists; reflexivity|].
  split; [now intros ->|].
  split; [now intros st -> ->|].
  split; [now intros st -> -> ->|].
  split; [now intros st -> -> ->|].
  split.
  { intros st text error -> -> -> ->. now destruct (truthy text). }
  split; [now intros st text v -> -> -> -> ->|].
  split; [intros; apply setValue_returns|].
  split; [intros v; apply setValue_NewValue_log|].
  split; [intros f v s1; apply setValue_Updater_log|].
  intros v st Hw Ha Hq. eexists. split.
  - apply setValue_NewValue_written; eassumption.
  - cbn. apply lookup_insert_eq.
Qed.
End StoreFacts.

(** ** App: recording an entry *)

Section AppendFacts.
Context {host : Host}.

Lemma bind_run {A B : Type} (m : M A) (k : A -> M B) (s s1 : State) (a : A) :
  m s = (Returns a, s1) -> bind m k s = k a s1.
Proof. intros H. unfold bind. now rewrite H. Qed.

Lemma handleLogUrination_run (s : State) :
  fst (handleLogUrination s) = Returns tt /\
  log (snd (handleLogUrination s)) =
    mkLogEntry (clock s (ticks s)) (clock s (S (ticks s))) :: log s /\
  clock (snd (handleLogUrination s)) = clock s /\
  ticks (snd (handleLogUrination s)) = S (S (ticks s)).
Proof.
  unfold handleLogUrination, setLog, setValue, try_catch, bind, ret,
    storedValue, setStoredValue, Date_now, typeof_window_undefined,
    localStorage_setItem, showToast, console_error.
  js_cases; repeat split; reflexivity.
Qed.

Lemma handleLogUrination_v2_log (s : State) :
  fst (handleLogUrination_v2 s) = Returns tt /\
  log (snd (handleLogUrination_v2 s)) = log (snd (handleLogUrination s)).
Proof.
  destruct (handleLogUrination_run s) as (_ & -> & _).
  unfold handleLogUrination_v2, setLog, setValue, try_catch, bind, ret,
    storedValue, setStoredValue, Date_now, typeof_window_undefined,
    localStorage_setItem, showToast, console_error.
  js_cases; repeat split; reflexivity.
Qed.

Lemma pressLog_run (n : nat) (s : State) :
  fst (pressLog n s) = Returns tt /\
  log (snd (pressLog n s)) = pressed s n ++ log s /\
  clock (snd (pressLog n s)) = clock s /\
  ticks (snd (pressLog n s)) = (ticks s + 2 * n)%nat.
Proof.
  induction n as [|n (Hr & Hl & Hc & Ht)].
  - cbn. repeat split. lia.
  - cbn [pressLog].
    destruct (pressLog n s) as [[[]|error] s1] eqn:E; [|discriminate].
    rewrite (bind_run _ _ _ _ _ E).
    cbn [fst snd] in *.
    destruct (handleLogUrination_run s1) as (Hr' & Hl' & Hc' & Ht').
    rewrite Hr', Hl', Hc', Ht', Hl, Hc, Ht.
    repeat split; [|lia].
    unfold pressed. rewrite seq_S, rev_app_distr. reflexivity.
Qed.

(** C10. Recording an entry puts one new entry in front of the log and
    leaves the log that was there behind it, entry for entry; this holds
    for both revisions of the handler and whatever the storage does. *)
Theorem append_keeps_earlier_entries (s : State) :
  (exists newEntry, log (snd (handleLogUrination s)) = newEntry :: log s) /\
  (exists newEntry, log (snd (handleLogUrination_v2 s)) = newEntry :: log s) /\
  (forall i, nth_error (log (snd (handleLogUrination s))) (S i) = nth_error (log s) i) /\
  tl (log (snd (handleLogUrination s))) = log s.
Proof.
  destruct (handleLogUrination_v2_log s) as [_ H2].
  destruct (handleLogUrination_run s) as (_ & H & _).
  rewrite H2, H. repeat split; eexists; reflexivity.
Qed.

(** C1, as the code has it.  One press creates a single entry and puts it
    in front: its id is one reading of the clock and its timestamp is the
    next reading, so the two are equal exactly when the clock did not move
    between the two readings.  [n] presses add [n] entries. *)
Theorem append_takes_two_readings (s : State) :
  (exists newEntry,
      log (snd (handleLogUrination s)) = newEntry :: log s /\
      id newEntry = clock s (ticks s) /\
      timestamp newEntry = clock s (S (ticks s)) /\
      (id newEntry = timestamp newEntry <->
       clock s (ticks s) = clock s (S (ticks s)))) /\
  log (snd (handleLogUrination_v2 s)) = log (snd (handleLogUrination s)) /\
  (forall n,
      log (snd (pressLog n s)) = pressed s n ++ log s /\
      List.length (log (snd (pressLog n s))) = (n + List.length (log s))%nat /\
      Forall (fun entry => exists i, id entry = clock s i /\
                                     timestamp entry = clock s (S i))
        (pressed s n)).
Proof.
  split.
  { eexists. destruct (handleLogUrination_run s) as (_ & H & _).
    split; [exact H|]. cbn. repeat split; auto. }
  split; [apply handleLogUrination_v2_log|].
  intros n. destruct (pressLog_run n s) as (_ & H & _).
  split; [exact H|]. split.
  - rewrite H, length_app. unfold pressed.
    now rewrite length_map, length_rev, length_seq.
  - unfold pressed. apply List.Forall_forall.
    intros entry (i & <- & _)%in_map_iff. eexists. split; reflexivity.
Qed.
End AppendFacts.

(** C1, refuted as stated: with a clock that moves between the two
    readings, the entry recorded has an id that is not its timestamp. *)
Lemma append_id_differs_from_timestamp :
  log (snd (handleLogUrination (host := utcHost) freshState)) =
    [mkLogEntry 1000 1001] /\
  ~ (forall s : State,
        exists newEntry,
          log (snd (handleLogUrination (host := utcHost) s)) = newEntry :: log s /\
          id newEntry = timestamp newEntry).
Proof.
  split; [reflexivity|].
  intros H. destruct (H freshState) as (e & Hlog & Hid).
  assert (Hrun : log (snd (handleLogUrination (host := utcHost) freshState)) =
                 [mkLogEntry 1000 1001]) by reflexivity.
  rewrite Hrun in Hlog. injection Hlog as <-. discriminate Hid.
Qed.


(** ** App: copying the log as text, and clearing it *)

Section CopyAndClear.
Context {host : Host}.

Lemma countChar_append (c : ascii) (s1 s2 : string) :
  countChar c (String.append s1 s2) = (countChar c s1 + countChar c s2)%nat.
Proof.
  induction s1 as [|d s1 IH]; [reflexivity|].
  change (countChar c (String.append (String d s1) s2))
    with ((if Ascii.eqb d c then 1 else 0) + countChar c (String.append s1 s2))%nat.
  rewrite IH. cbn [countChar]. lia.
Qed.

Lemma countChar_join (lines : list string) :
  lines <> [] ->
  Forall (fun line => countChar "010"%char line = O) lines ->
  countChar "010"%char (join (String "010"%char EmptyString) lines) =
  (List.length lines - 1)%nat.
Proof.
  intros Hne Hall. induction Hall as [|line lines Hline Hall IH]; [congruence|].
  destruct lines as [|line' lines].
  - cbn [join List.length]. rewrite Hline. reflexivity.
  - change (join (String "010"%char EmptyString) (line :: line' :: lines))
      with (String.append line
              (String.append (String "010"%char EmptyString)
                 (join (String "010"%char EmptyString) (line' :: lines)))).
    rewrite !countChar_append, Hline, IH by discriminate.
    cbn [countChar List.length Ascii.eqb]. simpl. lia.
Qed.

(** C7. With an empty log the handler only shows the message that there
    is nothing to copy: it returns normally and the clipboard is not
    touched.  Otherwise the text handed to the clipboard has one line per
    entry, the full date, " - " and the time, in the order of the log and
    joined by the line feed, character 10: for a log of two entries, the
    newer in front, the clipboard receives the line of the newer one, a
    line feed, and the line of the other; and when the formatted dates and
    times hold no line feed themselves, the text has exactly as many lines
    as the log has entries. *)
Theorem copy_all_as_text (s : State) :
  (log s = [] ->
     handleCopyToClipboard s =
     (Returns tt, with_toastMessage (Some "No hay nada que copiar.") s)) /\
  (log s <> [] -> clipboardRejects s = false ->
     handleCopyToClipboard s =
     (Returns tt,
      with_toastMessage (Some "¡Copiado al portapapeles!")
        (with_clipboard
           (Some (join (String "010"%char EmptyString)
                    (List.map exportLine (log s)))) s))) /\
  (log s <> [] -> clipboardRejects s = true ->
     handleCopyToClipboard s =
     (Returns tt, with_toastMessage (Some "Error al copiar.") s)) /\
  (forall entry,
      exportLine entry =
      String.append (Intl_format DateStyleFull (timestamp entry))
        (String.append " - " (Intl_format TimeStyleMedium (timestamp entry)))) /\
  (forall entry rest,
      rest <> [] ->
      join (String "010"%char EmptyString) (List.map exportLine (entry :: rest)) =
      String.append (exportLine entry)
        (String.append (String "010"%char EmptyString)
           (join (String "010"%char EmptyString) (List.map exportLine rest)))) /\
  (forall e1 e2,
      timestamp e2 < timestamp e1 ->
      join (String "010"%char EmptyString) (List.map exportLine [e1; e2]) =
      String.append (exportLine e1)
        (String.append (String "010"%char EmptyString) (exportLine e2))) /\
  (forall e1 e2,
      timestamp e2 < timestamp e1 ->
      log s = [e1; e2] -> clipboardRejects s = false ->
      clipboard (snd (handleCopyToClipboard s)) =
      Some (String.append (exportLine e1)
              (String.append (String "010"%char EmptyString) (exportLine e2)))) /\
  (log s <> [] -> clipboardRejects s = false ->
   Forall (fun entry => countChar "010"%char (exportLine entry) = O) (log s) ->
   exists text,
     clipboard (snd (handleCopyToClipboard s)) = Some text /\
     S (countChar "010"%char text) = List.length (log s)).
Proof.
  assert (Hcopy : log s <> [] -> clipboardRejects s = false ->
     handleCopyToClipboard s =
     (Returns tt,
      with_toastMessage (Some "¡Copiado al portapapeles!")
        (with_clipboard
           (Some (join (String "010"%char EmptyString)
                    (List.map exportLine (log s)))) s))).
  { unfold handleCopyToClipboard, bind, storedValue, clipboard_writeText.
    intros Hne Hc. destruct (log s) as [|e l] eqn:E; [congruence|].
    cbv beta iota. change (Z.of_nat (List.length (e :: l)) =? 0) with false.
    cbv beta iota. rewrite Hc, <- E. reflexivity. }
  split.
  { unfold handleCopyToClipboard, bind, storedValue, clipboard_writeText.
    intros H; rewrite H; reflexivity. }
  split; [exact Hcopy|].
  split.
  { unfold handleCopyToClipboard, bind, storedValue, clipboard_writeText.
    intros Hne Hc. destruct (log s) as [|e l] eqn:E; [congruence|].
    cbv beta iota. change (Z.of_nat (List.length (e :: l)) =? 0) with false.
    cbv beta iota. rewrite Hc. reflexivity. }
  split; [reflexivity|].
  split; [intros entry [|e rest] Hne; [congruence|reflexivity]|].
  split; [reflexivity|].
  split.
  { intros e1 e2 _ Hlog Hc.
    assert (Hne : log s <> []) by (rewrite Hlog; discriminate).
    rewrite (Hcopy Hne Hc), Hlog. reflexivity. }
  intros Hne Hc Hlines.
  rewrite (Hcopy Hne Hc). eexists. split; [reflexivity|].
  rewrite countChar_join.
  - rewrite length_map. destruct (log s); [congruence|]. cbn [List.length]. lia.
  - destruct (log s); [congruence|discriminate].
  - apply Forall_map. exact Hlines.
Qed.

(** C8. Once the user has confirmed, clearing empties the log in memory.
    When the browser storage takes the write, the text stored under the
    key is that of the empty array, and a later load of that key, in any
    session that finds this storage, returns the empty log. *)
Theorem clear_round_trip (s : State) :
  json_empty_array ->
  confirmReply s = true ->
  let s' := snd (handleClearLog s) in
  fst (handleClearLog s) = Returns tt /\
  log s' = [] /\
  (forall st, window s = Some st -> accessDenied st = false ->
              quotaExceeded st = false ->
      (exists st', window s' = Some st' /\
                   items st' !! storageKey = Some (JSON_stringify [])) /\
      (forall later initialValue, window later = window s' ->
          fst (useLocalStorage_init storageKey initialValue later) = Returns [])).
Proof.
  intros [Hwrite Hread] Hyes s'. subst s'.
  assert (Hrun : handleClearLog s =
                 (Returns tt,
                  with_toastMessage (Some "Registro borrado.")
                    (snd (setLog (NewValue []) s)))).
  { unfold handleClearLog, window_confirm, bind. rewrite Hyes.
    pose proof (setValue_returns storageKey (NewValue []) s) as Hr.
    unfold setLog.
    destruct (setValue storageKey (NewValue []) s) as [o s1].
    cbn in Hr. subst o. reflexivity. }
  rewrite Hrun. cbn [fst snd].
  split; [reflexivity|].
  split; [apply setValue_NewValue_log|].
  intros st Hw Ha Hq.
  pose proof (setValue_NewValue_written storageKey [] s st Hw Ha Hq) as Hst.
  split.
  { eexists. split; [exact Hst|]. cbn. apply lookup_insert_eq. }
  intros later initialValue Hlater. rewrite load_cases, Hlater.
  cbn [window with_toastMessage]. unfold setLog. rewrite Hst. cbn.
  rewrite lookup_insert_eq, Hwrite. cbn. now rewrite Hread.
Qed.
End CopyAndClear.

(** ** The statements at work on the concrete host *)

Lemma bar_value_is_detail_length_witness :
  In (mkBar "day 9" 2 (9 * oneDay) "day-9")
     (chartData (host := utcHost) 0 all (log loggedState)) /\
  exists dayData,
    selectedDayData (snd (handleBarClick (host := utcHost) "day-9" loggedState)) =
      Some dayData /\
    dayData = dayEntriesOf (host := utcHost) (log loggedState) "day-9" /\
    Z.of_nat (List.length dayData) = 2 /\
    Z.of_nat (List.length (DetailsModal dayData)) = 2.
Proof.
  assert (Hbar : In (mkBar "day 9" 2 (9 * oneDay) "day-9")
                   (chartData (host := utcHost) 0 all (log loggedState))).
  { vm_compute. left. reflexivity. }
  split; [exact Hbar|].
  exact (bar_value_is_detail_length (host := utcHost) 0 loggedState
           (mkBar "day 9" 2 (9 * oneDay) "day-9") Hbar).
Defined.

Lemma store_never_throws_witness :
  fst (useLocalStorage_init (host := utcHost) storageKey [] corruptState) = Returns [] /\
  log (snd (setValue (host := utcHost) storageKey (NewValue fourEntries) corruptState)) =
    fourEntries.
Proof.
  pose proof (store_never_throws (host := utcHost) storageKey [] corruptState)
    as (_ & _ & _ & _ & _ & Hbad & _ & _ & Hmem & _).
  split.
  - apply (Hbad (mkStorage {[ storageKey := "oops" ]} false true) "oops" "SyntaxError");
      reflexivity.
  - apply Hmem.
Defined.

Lemma copy_all_as_text_witness :
  handleCopyToClipboard (host := utcHost) freshState =
    (Returns tt, with_toastMessage (Some "No hay nada que copiar.") freshState) /\
  clipboard (snd (handleCopyToClipboard (host := utcHost) loggedState)) =
    Some (join (String "010"%char EmptyString)
            (List.map (exportLine (host := utcHost)) fourEntries)) /\
  exists text,
    clipboard (snd (handleCopyToClipboard (host := utcHost) loggedState)) = Some text /\
    S (countChar "010"%char text) = 4%nat.
Proof.
  pose proof (copy_all_as_text (host := utcHost) freshState) as (Hempty & _).
  pose proof (copy_all_as_text (host := utcHost) loggedState)
    as (_ & Hcopy & _ & _ & _ & _ & _ & Hlines).
  split; [apply Hempty; reflexivity|].
  split; [rewrite Hcopy; [reflexivity|discriminate|reflexivity]|].
  apply Hlines; [discriminate|reflexivity|].
  repeat constructor.
Defined.

Lemma clear_round_trip_witness :
  json_empty_array (host := utcHost) /\
  confirmReply loggedState = true /\
  log (snd (handleClearLog (host := utcHost) loggedState)) = [] /\
  fst (useLocalStorage_init (host := utcHost) storageKey fourEntries
         (snd (handleClearLog (host := utcHost) loggedState))) = Returns [].
Proof.
  pose proof (clear_round_trip (host := utcHost) loggedState
                utcHost_json_empty_array eq_refl) as (_ & Hmem & Hstore).
  split; [exact utcHost_json_empty_array|]. split; [reflexivity|].
  split; [exact Hmem|].
  destruct (Hstore (mkStorage
                      {[ storageKey := JSON_stringify (Host := utcHost) fourEntries ]}
                      false false) eq_refl eq_refl eq_refl) as [_ Hload].
  apply Hload. reflexivity.
Defined.

(** * Further properties of the code *)

(** ** LogChart: the periods, the bars and the axis *)

Lemma filter_filter_length {A : Type} (p q : A -> bool) (l : list A) :
  (List.length (List.filter p (List.filter q l)) <= List.length (List.filter p l))%nat.
Proof.
  induction l as [|x l IH]; simpl; [lia|].
  destruct (q x), (p x) eqn:E; simpl; rewrite ?E; simpl; lia.
Qed.

Lemma filter_implied_sublist {A : Type} (p q : A -> bool) (l : list A) :
  (forall x, p x = true -> q x = true) ->
  sublist (List.filter p l) (List.filter q l).
Proof.
  intros Hpq. induction l as [|x l IH]; simpl; [constructor|].
  destruct (p x) eqn:Ep.
  - rewrite (Hpq x Ep). now constructor.
  - destruct (q x); [now constructor|assumption].
Qed.

(** X1. The periods are nested: what 'week' keeps is kept by 'month', in
    the same order, and what 'month' keeps is kept by 'all'. *)
Theorem periods_are_nested (now : Z) (entries : list LogEntry) :
  sublist (filteredEntries now week entries) (filteredEntries now month entries) /\
  sublist (filteredEntries now month entries) (filteredEntries now all entries) /\
  sublist (filteredEntries now all entries) entries.
Proof.
  rewrite filteredEntries_week, filteredEntries_month, filteredEntries_all.
  split; [|split; [apply filter_sublist|reflexivity]].
  apply filter_implied_sublist. intros entry H.
  apply Z.ltb_lt in H. apply Z.ltb_lt. unfold oneDay in *. lia.
Qed.

Section ChartMore.
Context {host : Host}.

Lemma countsByDay_nil (filtered : list LogEntry) :
  countsByDay filtered = [] <-> filtered = [].
Proof.
  split; [|now intros ->].
  destruct filtered as [|entry rest]; [reflexivity|]. intros H.
  pose proof (countsByDay_get (entry :: rest) (binOf entry)) as Hget.
  rewrite H in Hget. cbn [List.filter] in Hget.
  unfold inBin at 1 in Hget. rewrite String.eqb_refl in Hget. discriminate.
Qed.

(** X2. The chart has no bar, and shows its placeholder, exactly when no
    entry passes the period filter. *)
Theorem chart_empty_iff_nothing_in_period (now : Z) (period : ChartPeriod)
    (entries : list LogEntry) :
  chartData now period entries = [] <-> filteredEntries now period entries = [].
Proof.
  unfold chartData, Obj.entries. rewrite <- countsByDay_nil. split.
  - intros H. apply (f_equal (@List.length Bar)) in H.
    rewrite sortBy_length, length_map in H.
    now destruct (countsByDay (filteredEntries now period entries)).
  - now intros ->.
Qed.

Lemma countSum_app (o1 o2 : list (string * DayCount)) :
  countSum (o1 ++ o2) = countSum o1 + countSum o2.
Proof.
  unfold countSum. induction o1 as [|kc o1 IH]; simpl; [reflexivity|].
  rewrite IH. lia.
Qed.

Lemma countSum_set (o : list (string * DayCount)) (k : string) (c c' : DayCount) :
  Obj.get o k = Some c ->
  countSum (Obj.set o k c') = countSum o - count c + count c'.
Proof.
  unfold countSum. induction o as [|[k0 c0] o IH]; simpl; [discriminate|].
  destruct (String.eqb k0 k).
  - intros [= ->]. simpl. lia.
  - intros H. simpl. rewrite (IH H). lia.
Qed.

Lemma countSum_upsert (o : list (string * DayCount)) (k : string) (d : Z) :
  countSum (upsert (mkDayCount 0 d) (fun c => mkDayCount (count c + 1) (date c)) o k)
  = countSum o + 1.
Proof.
  unfold upsert. destruct (Obj.get o k) as [c|] eqn:E.
  - rewrite E. rewrite (countSum_set _ _ c) by assumption. simpl. lia.
  - rewrite get_set_eq.
    rewrite (countSum_set _ _ (mkDayCount 0 d)) by apply get_set_eq.
    rewrite set_None by assumption. rewrite countSum_app.
    unfold countSum at 2. simpl. lia.
Qed.

Lemma countSum_countsByDay (filtered : list LogEntry) :
  countSum (countsByDay filtered) = Z.of_nat (List.length filtered).
Proof.
  rewrite countsByDay_fold.
  enough (H : forall l acc,
             countSum
               (fold_left
                  (fun acc entry =>
                     upsert (mkDayCount 0 (setHours0 (timestamp entry)))
                       (fun c => mkDayCount (count c + 1) (date c)) acc (binOf entry))
                  l acc)
             = countSum acc + Z.of_nat (List.length l)).
  { rewrite H. reflexivity. }
  induction l as [|x l IH]; intros acc; simpl List.length; simpl fold_left.
  - lia.
  - rewrite IH, countSum_upsert. lia.
Qed.

Lemma totalValue_perm (l l' : list Bar) :
  Permutation l l' -> totalValue l = totalValue l'.
Proof.
  unfold totalValue.
  induction 1 as [|x l l' _ IH|x y l|l l' l'' _ IH1 _ IH2]; simpl; lia.
Qed.

(** X3. The values of the bars add up to the number of entries that pass
    the period filter: the chart counts each of them once. *)
Theorem bars_count_every_entry_once (now : Z) (period : ChartPeriod)
    (entries : list LogEntry) :
  totalValue (chartData now period entries) =
  Z.of_nat (List.length (filteredEntries now period entries)).
Proof.
  unfold chartData, Obj.entries. rewrite (totalValue_perm _ _ (sortBy_perm _ _)).
  rewrite <- countSum_countsByDay. unfold totalValue, countSum.
  rewrite map_map. f_equal. apply map_ext. now intros [k c].
Qed.
End ChartMore.

Lemma StronglySorted_strict {A : Type} (key : A -> Z) (l : list A) :
  StronglySorted (fun a b => key a <= key b) l ->
  List.NoDup (List.map key l) ->
  StronglySorted (fun a b => key a < key b) l.
Proof.
  induction 1 as [|a l Hs IH Hall]; intros Hnd; [constructor|].
  simpl in Hnd. apply NoDup_cons_iff in Hnd as [Ha Hnd].
  constructor; [now apply IH|].
  apply List.Forall_forall. intros b Hb.
  rewrite List.Forall_forall in Hall. specialize (Hall b Hb).
  assert (key a <> key b); [|lia].
  intros Heq. apply Ha. rewrite Heq. now apply in_map.
Qed.

Section BarsMore.
Context {host : Host}.

Lemma chartData_In (now : Z) (period : ChartPeriod) (entries : list LogEntry)
    (bar : Bar) :
  In bar (chartData now period entries) <->
  exists k entry rest,
    List.filter (inBin k) (filteredEntries now period entries) = entry :: rest /\
    bar = mkBar (formatTimestamp (setHours0 (timestamp entry)) ShortDay)
            (Z.of_nat (List.length (entry :: rest)))
            (setHours0 (timestamp entry)) k.
Proof.
  unfold chartData, Obj.entries. rewrite sortBy_In, in_map_iff. split.
  - intros ([k c] & <- & Hin).
    apply In_get in Hin; [|apply countsByDay_NoDup].
    rewrite countsByDay_get in Hin.
    destruct (List.filter (inBin k) (filteredEntries now period entries))
      as [|entry rest] eqn:Hf; [discriminate|].
    injection Hin as <-. exists k, entry, rest. split; [exact Hf|reflexivity].
  - intros (k & entry & rest & Hf & ->).
    exists (k, mkDayCount (Z.of_nat (List.length (entry :: rest)))
                 (setHours0 (timestamp entry))).
    split; [reflexivity|].
    apply get_Some_In. rewrite countsByDay_get, Hf. reflexivity.
Qed.

Lemma chartData_key_of_date (now : Z) (period : ChartPeriod)
    (entries : list LogEntry) (bar : Bar) :
  In bar (chartData now period entries) ->
  fullDate bar = split_T_0 (toISOString (bar_date bar)).
Proof.
  intros (k & entry & rest & Hf & ->)%chartData_In. cbn [fullDate bar_date].
  assert (Hin : In entry (List.filter (inBin k) (filteredEntries now period entries)))
    by (rewrite Hf; now left).
  apply filter_In in Hin as [_ Hk]. apply String.eqb_eq in Hk.
  now rewrite <- Hk.
Qed.

Lemma chartData_keys_NoDup (now : Z) (period : ChartPeriod) (entries : list LogEntry) :
  List.NoDup (List.map fullDate (chartData now period entries)).
Proof.
  unfold chartData, Obj.entries.
  eapply Permutation_NoDup;
    [symmetry; apply Permutation_map, sortBy_perm|].
  rewrite map_map.
  erewrite map_ext; [apply countsByDay_NoDup|]. now intros [k c].
Qed.

(** X4. The bars stand in the order of their days, each day once: their
    keys are pairwise distinct, their dates strictly ascending, the key of
    a bar is the date part of the ISO text of its date, and every entry
    that passes the filter is counted in the bar of its own day. *)
Theorem bars_one_per_day_in_date_order (now : Z) (period : ChartPeriod)
    (entries : list LogEntry) :
  let bars := chartData now period entries in
  List.NoDup (List.map fullDate bars) /\
  StronglySorted (fun a b => bar_date a < bar_date b) bars /\
  (forall bar, In bar bars ->
      fullDate bar = split_T_0 (toISOString (bar_date bar)) /\ 1 <= value bar) /\
  (forall entry, In entry (filteredEntries now period entries) ->
      exists bar, In bar bars /\ fullDate bar = dateStringOf (timestamp entry)).
Proof.
  intros bars. subst bars.
  split; [apply chartData_keys_NoDup|].
  split.
  { apply StronglySorted_strict.
    - unfold chartData. apply sortBy_sorted; intros; lia.
    - pose proof (chartData_keys_NoDup now period entries) as Hnd.
      assert (Hkey : List.map fullDate (chartData now period entries) =
                     List.map (fun d => split_T_0 (toISOString d))
                       (List.map bar_date (chartData now period entries))).
      { rewrite map_map. apply map_ext_in. intros bar Hbar.
        now apply chartData_key_of_date in Hbar. }
      rewrite Hkey in Hnd. now apply NoDup_map_inv in Hnd. }
  split.
  { intros bar Hbar. split; [now apply chartData_key_of_date in Hbar|].
    apply chartData_In in Hbar as (k & e & rest & _ & ->). cbn [value].
    simpl List.length. lia. }
  intros entry Hin.
  destruct (List.filter (inBin (binOf entry)) (filteredEntries now period entries))
    as [|first rest] eqn:Hf.
  - assert (H : In entry (List.filter (inBin (binOf entry))
                            (filteredEntries now period entries))).
    { apply filter_In. split; [assumption|]. apply String.eqb_refl. }
    rewrite Hf in H. destruct H.
  - eexists. split; [apply chartData_In; exists (binOf entry), first, rest;
                     split; [exact Hf|reflexivity]|reflexivity].
Qed.

(** X5. Whatever the period, a click on a bar opens a details view with at
    least as many rows as the bar displays, hence never an empty one: the
    bar counts the entries of its day that pass the filter, the details
    view lists all entries of that day. *)
Theorem details_cover_the_bar (now : Z) (period : ChartPeriod) (s : State)
    (bar : Bar) :
  In bar (chartData now period (log s)) ->
  exists dayData,
    selectedDayData (snd (handleBarClick (fullDate bar) s)) = Some dayData /\
    1 <= value bar <= Z.of_nat (List.length (DetailsModal dayData)).
Proof.
  intros Hbar. exists (dayEntriesOf (log s) (fullDate bar)).
  split; [reflexivity|].
  apply chartData_value in Hbar as [Hv Hpos].
  unfold DetailsModal. rewrite sortBy_length, Hv. split; [lia|].
  rewrite !dayEntriesOf_filter. apply inj_le.
  unfold filteredEntries. apply filter_filter_length.
Qed.
End BarsMore.

Lemma numTicks_divides (values : list Z) :
  0 < yAxisTop values ->
  0 < numTicks values /\
  yAxisTop values = numTicks values * (yAxisTop values / numTicks values) /\
  0 < yAxisTop values / numTicks values.
Proof.
  intros Hpos.
  assert (Hn : 0 < numTicks values /\ yAxisTop values mod numTicks values = 0).
  { unfold numTicks. cbv zeta.
    destruct (Z.ltb_spec 0 (yAxisTop values)); [|lia].
    destruct (Z.le_gt_cases (maxValue values) 5) as [Hs|Hl].
    - rewrite (yAxisTop_small _ Hs) in *.
      rewrite Z.min_l by lia. split; [lia|]. apply Z.mod_same; lia.
    - destruct (yAxisTop_large _ Hl) as [Hm Hb].
      rewrite Z.min_r by lia. split; [lia|exact Hm]. }
  destruct Hn as [Hn Hdiv]. apply Z.div_exact in Hdiv; [|lia].
  split; [assumption|]. split; [assumption|]. nia.
Qed.

Lemma multiples_sorted (k : Z) (a len : nat) :
  0 < k ->
  StronglySorted Z.lt (List.map (fun i => k * Z.of_nat i) (seq a len)).
Proof.
  intros Hk. revert a. induction len as [|len IH]; intros a; simpl; [constructor|].
  constructor; [apply IH|].
  apply List.Forall_forall. intros y (i & <- & Hi)%in_map_iff.
  apply in_seq in Hi. nia.
Qed.

(** X6. In a chart that has bars, each of them at least 1 high, the axis
    holds every bar: its top is positive and no value exceeds it; its
    labels ascend strictly from 0 to the top. *)
Theorem axis_holds_every_bar (values : list Z) :
  values <> [] ->
  Forall (fun v => 1 <= v) values ->
  let top := yAxisTop values in
  0 < top /\
  Forall (fun v => v <= top) values /\
  StronglySorted Z.lt (yAxisLabels values) /\
  hd_error (yAxisLabels values) = Some 0 /\
  In top (yAxisLabels values) /\
  Forall (fun y => 0 <= y <= top) (yAxisLabels values).
Proof.
  intros Hne Hone top. subst top.
  destruct (maxValue_upper values) as [_ Hup].
  assert (Hm : maxValue values <= yAxisTop values).
  { destruct (Z.le_gt_cases (maxValue values) 5) as [Hs|Hl].
    - rewrite (yAxisTop_small _ Hs). lia.
    - destruct (yAxisTop_large _ Hl). lia. }
  assert (Hpos : 0 < yAxisTop values).
  { destruct values as [|v values]; [congruence|].
    inversion Hone; subst. inversion Hup; subst. lia. }
  destruct (numTicks_divides values Hpos) as (Hn & Htop & Hk).
  rewrite (yAxisLabels_positive values Hpos).
  split; [assumption|].
  split; [revert Hup; apply List.Forall_impl; intros; lia|].
  split; [now apply multiples_sorted|].
  split; [rewrite Nat.add_1_r; cbn [seq List.map hd_error]; f_equal; lia|].
  split.
  { apply in_map_iff. exists (Z.to_nat (numTicks values)). split; [|apply in_seq; lia].
    rewrite Z2Nat.id by lia. lia. }
  apply List.Forall_forall. intros y (i & <- & Hi)%in_map_iff.
  apply in_seq in Hi. nia.
Qed.

Lemma axis_holds_every_bar_witness :
  [1; 6; 11] <> [] /\
  Forall (fun v => 1 <= v) [1; 6; 11] /\
  Forall (fun v => v <= yAxisTop [1; 6; 11]) [1; 6; 11] /\
  In (yAxisTop [1; 6; 11]) (yAxisLabels [1; 6; 11]).
Proof.
  assert (Hne : [1; 6; 11] <> []) by discriminate.
  assert (Hone : Forall (fun v => 1 <= v) [1; 6; 11]).
  { repeat constructor; lia. }
  pose proof (axis_holds_every_bar [1; 6; 11] Hne Hone) as (_ & Hfit & _ & _ & Htop & _).
  split; [exact Hne|]. split; [exact Hone|]. split; [exact Hfit|exact Htop].
Defined.

Lemma details_cover_the_bar_witness :
  In (mkBar "day 4" 1 (4 * oneDay) "day-4")
     (chartData (host := utcHost) (11 * oneDay + 100) week (log straddlingState)) /\
  exists dayData,
    selectedDayData
      (snd (handleBarClick (host := utcHost) "day-4" straddlingState)) = Some dayData /\
    1 <= 1 <= Z.of_nat (List.length (DetailsModal dayData)).
Proof.
  assert (Hbar : In (mkBar "day 4" 1 (4 * oneDay) "day-4")
                   (chartData (host := utcHost) (11 * oneDay + 100) week
                      (log straddlingState))).
  { vm_compute. left. reflexivity. }
  split; [exact Hbar|].
  exact (details_cover_the_bar (host := utcHost) (11 * oneDay + 100) week
           straddlingState (mkBar "day 4" 1 (4 * oneDay) "day-4") Hbar).
Defined.

(** Under 'week' the details view can list more rows than the bar counts:
    here the bar of day 4 displays 1 and the view lists 2. *)
Example week_bar_and_details_differ :
  List.map value
    (chartData (host := utcHost) (11 * oneDay + 100) week straddlingEntries) = [1] /\
  List.length (dayEntriesOf (host := utcHost) straddlingEntries "day-4") = 2%nat.
Proof. split; vm_compute; reflexivity. Qed.

(** ** LogList and DetailsModal: order of what is shown *)

Lemma StronglySorted_weaken {A : Type} (R R' : A -> A -> Prop) (l : list A) :
  (forall a b, In a l -> In b l -> R a b -> R' a b) ->
  StronglySorted R l -> StronglySorted R' l.
Proof.
  intros Himp Hs. induction Hs as [|a l Hs IH Hall]; constructor.
  - apply IH. intros x y Hx Hy. apply Himp; now right.
  - apply List.Forall_forall. intros b Hb. rewrite List.Forall_forall in Hall.
    apply Himp; [now left|now right|now apply Hall].
Qed.

Lemma StronglySorted_append {A : Type} (R : A -> A -> Prop) (l1 l2 : list A) :
  StronglySorted R l1 -> StronglySorted R l2 ->
  (forall a b, In a l1 -> In b l2 -> R a b) ->
  StronglySorted R (l1 ++ l2).
Proof.
  intros H1 H2 H12. induction H1 as [|a l1 Hs IH Hall]; simpl; [assumption|].
  constructor.
  - apply IH. intros x y Hx. apply H12. now right.
  - apply Forall_app. split; [assumption|].
    apply List.Forall_forall. intros b Hb. apply H12; [now left|assumption].
Qed.

Lemma concat_snd_sorted {K A : Type} (R : A -> A -> Prop) (ls : list (K * list A)) :
  Forall (fun s => StronglySorted R (snd s)) ls ->
  StronglySorted (fun s1 s2 => forall a b, In a (snd s1) -> In b (snd s2) -> R a b) ls ->
  StronglySorted R (concat (List.map snd ls)).
Proof.
  intros Hin Hs. induction Hs as [|s ls Hs IH Hall]; simpl; [constructor|].
  inversion Hin as [|? ? Hs1 Hrest]; subst.
  apply StronglySorted_append; [assumption|now apply IH|].
  intros a b Ha Hb. apply in_concat in Hb as (l & Hl & Hb).
  apply in_map_iff in Hl as (s2 & <- & Hs2).
  rewrite List.Forall_forall in Hall. now apply (Hall s2 Hs2).
Qed.

(** Two sorted arrangements of the same elements are the same list, when
    no two different elements may stand either way round. *)
Lemma sorted_perm_unique {A : Type} (R : A -> A -> Prop) (l1 l2 : list A) :
  (forall a b, In a l1 -> In b l1 -> R a b -> R b a -> a = b) ->
  StronglySorted R l1 -> StronglySorted R l2 -> Permutation l1 l2 -> l1 = l2.
Proof.
  intros Hanti H1. revert l2.
  induction H1 as [|a l1 Hs IH Hall]; intros l2 H2 Hp.
  - apply Permutation_nil in Hp. now subst.
  - destruct l2 as [|b l2]; [symmetry in Hp; now apply Permutation_nil_cons in Hp|].
    apply StronglySorted_inv in H2 as [H2 Hall2].
    rewrite List.Forall_forall in Hall, Hall2.
    assert (Hab : a = b).
    { assert (Ha : In a (b :: l2)) by (eapply Permutation_in; [exact Hp|now left]).
      assert (Hb : In b (a :: l1))
        by (eapply Permutation_in; [symmetry; exact Hp|now left]).
      destruct Ha as [->|Ha]; [reflexivity|].
      destruct Hb as [->|Hb]; [reflexivity|].
      apply Hanti; [now left|now right|now apply Hall|now apply Hall2]. }
    subst b. f_equal. apply IH; [|assumption|now apply Permutation_cons_inv in Hp].
    intros x y Hx Hy. apply Hanti; now right.
Qed.

Section SortMore.
Context {A : Type} (cmp : A -> A -> Z).
Variable before : A -> A -> Prop.
Hypothesis cmp_before : forall a b, cmp a b <= 0 <-> before a b.

Lemma sortBy_fixed (l : list A) : StronglySorted before l -> sortBy cmp l = l.
Proof.
  induction 1 as [|a l Hs IH Hall]; simpl; [reflexivity|].
  rewrite IH. destruct l as [|b l]; [reflexivity|]. simpl.
  inversion Hall as [|? ? Hab _]; subst. apply cmp_before in Hab.
  destruct (Z.leb_spec (cmp a b) 0); [reflexivity|lia].
Qed.

(** An element is only moved past elements it must follow. *)
Lemma insertBy_filter (p : A -> bool) (x : A) (l : list A) :
  (forall y, p x = true -> p y = true -> cmp x y <= 0) ->
  List.filter p (insertBy cmp x l) = List.filter p (x :: l).
Proof.
  intros Hp. induction l as [|y l IH]; [reflexivity|]. simpl insertBy.
  destruct (Z.leb_spec (cmp x y) 0) as [|Hgt]; [reflexivity|].
  cbn [List.filter] in *. rewrite IH.
  destruct (p x) eqn:Ex; [|reflexivity].
  destruct (p y) eqn:Ey; [|reflexivity].
  specialize (Hp y eq_refl Ey). lia.
Qed.

Lemma sortBy_filter (p : A -> bool) (l : list A) :
  (forall x y, p x = true -> p y = true -> cmp x y <= 0) ->
  List.filter p (sortBy cmp l) = List.filter p l.
Proof.
  intros Hp. induction l as [|x l IH]; [reflexivity|]. simpl sortBy.
  rewrite insertBy_filter by (intros; now apply Hp).
  cbn [List.filter]. now rewrite IH.
Qed.
End SortMore.

Section ListMore.
Context {host : Host}.

Let newestFirst (a b : LogEntry) : Z := timestamp b - timestamp a.

(** X7. Days being intervals of time, the list view read from top to bottom
    shows the entries newest first, whatever their order in the log. *)
Theorem list_view_is_newest_first (entries : list LogEntry) :
  days_are_intervals ->
  StronglySorted (fun a b => timestamp b <= timestamp a)
    (concat (List.map snd (LogList entries))).
Proof.
  intros calendar. apply concat_snd_sorted.
  - apply List.Forall_forall. intros [day bucket] [_ ->]%LogList_In.
    apply newestFirst_sorted.
  - eapply StronglySorted_weaken; [|apply (LogList_sorted calendar)].
    intros s1 s2 _ _ H a b Ha Hb. specialize (H a b Ha Hb). lia.
Qed.

Lemma sortedDates_by_day (entries : list LogEntry) :
  days_are_intervals ->
  StronglySorted
    (fun a b => forall x y, In x entries -> In y entries ->
                            dayOf x = a -> dayOf y = b -> timestamp y < timestamp x)
    (sortedDates (groupedEntries entries)).
Proof.
  intros calendar.
  rewrite <- (map_id (sortedDates (groupedEntries entries))).
  apply StronglySorted_map_distinct with
    (P := fun a b => firstTimestamp (groupedEntries entries) b
                     <= firstTimestamp (groupedEntries entries) a).
  - apply sortBy_sorted; intros; lia.
  - eapply Permutation_NoDup; [symmetry; apply sortedDates_perm|].
    apply groupedEntries_NoDup.
  - intros a b Ha Hb Hab Hle x y _ _ Hx Hy.
    apply (Permutation_in _ (sortedDates_perm entries)) in Ha, Hb.
    destruct (firstTimestamp_member _ _ Ha) as (fa & _ & Hfa & Ea).
    destruct (firstTimestamp_member _ _ Hb) as (fb & _ & Hfb & Eb).
    rewrite Ea, Eb in Hle.
    apply (days_apart calendar fa fb); congruence.
Qed.

(** X8. Days being intervals of time, the list view depends on which
    entries the log holds and not on their order: a reordered log gives the
    same headings in the same order, and, when no two different entries
    share a timestamp, the same view altogether. *)
Theorem list_view_ignores_log_order (entries reordered : list LogEntry) :
  days_are_intervals ->
  Permutation entries reordered ->
  List.map fst (LogList entries) = List.map fst (LogList reordered) /\
  ((forall a b, In a entries -> In b entries ->
                timestamp a = timestamp b -> a = b) ->
   LogList entries = LogList reordered).
Proof.
  intros calendar Hp.
  assert (Hdays : sortedDates (groupedEntries entries) =
                  sortedDates (groupedEntries reordered)).
  { eapply sorted_perm_unique;
      [|apply (sortedDates_by_day entries calendar)| |].
    - intros a b Ha Hb Hab Hba. exfalso.
      apply (Permutation_in _ (sortedDates_perm entries)) in Ha, Hb.
      apply groupedEntries_keys in Ha as (x & Hx & Hxa).
      apply groupedEntries_keys in Hb as (y & Hy & Hyb).
      specialize (Hab x y Hx Hy Hxa Hyb). specialize (Hba y x Hy Hx Hyb Hxa). lia.
    - eapply StronglySorted_weaken; [|apply (sortedDates_by_day reordered calendar)].
      intros a b _ _ H x y Hx Hy. apply H; eapply Permutation_in; eassumption.
    - rewrite !sortedDates_perm.
      apply Permutation.NoDup_Permutation; try apply groupedEntries_NoDup.
      intros k. rewrite !groupedEntries_keys.
      split; intros (e & He & Hk); exists e; (split; [|assumption]);
        eapply Permutation_in; try eassumption. now symmetry. }
  split; [now rewrite !LogList_days|].
  intros Hinj. unfold LogList. rewrite <- Hdays. apply map_ext_in.
  intros day _. f_equal. rewrite !bucketOf_filter.
  eapply sorted_perm_unique with (R := fun a b => timestamp b <= timestamp a);
    [|apply newestFirst_sorted|apply newestFirst_sorted|].
  - intros a b [Ha _]%sortBy_In%filter_In [Hb _]%sortBy_In%filter_In H1 H2.
    apply Hinj; [assumption|assumption|lia].
  - rewrite !sortBy_perm. now apply filter_perm.
Qed.
End ListMore.

Section RenderMore.
Context {host : Host}.

(** X9. Sorting again what a render has sorted changes nothing: the
    in-place sorts of LogList and DetailsModal, repeated at every render,
    leave the rows of the details view and the buckets of the list as they
    are. *)
Theorem sorting_again_changes_nothing (entries dayData : list LogEntry) :
  DetailsModal (DetailsModal dayData) = DetailsModal dayData /\
  (forall day bucket, In (day, bucket) (LogList entries) ->
      sortBy (fun a b => timestamp b - timestamp a) bucket = bucket).
Proof.
  assert (Hfix : forall l : list LogEntry,
             sortBy (fun a b => timestamp b - timestamp a)
               (sortBy (fun a b => timestamp b - timestamp a) l)
             = sortBy (fun a b => timestamp b - timestamp a) l).
  { intros l.
    apply sortBy_fixed with (before := fun a b => timestamp b <= timestamp a);
      [intros; lia|apply newestFirst_sorted]. }
  split; [apply Hfix|].
  intros day bucket [_ ->]%LogList_In. apply Hfix.
Qed.

(** X10. Entries that carry the same timestamp are shown in the order the
    log has them, in the details view and in every bucket of the list. *)
Theorem same_timestamp_keeps_log_order (entries dayData : list LogEntry) (t : Z) :
  List.filter (fun entry => timestamp entry =? t) (DetailsModal dayData) =
    List.filter (fun entry => timestamp entry =? t) dayData /\
  (forall day bucket, In (day, bucket) (LogList entries) ->
      List.filter (fun entry => timestamp entry =? t) bucket =
      List.filter (fun entry => timestamp entry =? t)
        (List.filter (onDay day) entries)).
Proof.
  assert (Hst : forall l : list LogEntry,
             List.filter (fun entry => timestamp entry =? t)
               (sortBy (fun a b => timestamp b - timestamp a) l)
             = List.filter (fun entry => timestamp entry =? t) l).
  { intros l. apply sortBy_filter. intros x y Hx Hy.
    apply Z.eqb_eq in Hx, Hy. lia. }
  split; [apply Hst|].
  intros day bucket [_ ->]%LogList_In. apply Hst.
Qed.
End RenderMore.

Lemma list_view_is_newest_first_witness :
  days_are_intervals (host := utcHost) /\
  StronglySorted (fun a b => timestamp b <= timestamp a)
    (concat (List.map snd (LogList (host := utcHost) fourEntries))).
Proof.
  split; [exact utcHost_days_are_intervals|].
  exact (list_view_is_newest_first (host := utcHost) fourEntries
           utcHost_days_are_intervals).
Defined.

Lemma list_view_ignores_log_order_witness :
  days_are_intervals (host := utcHost) /\
  Permutation fourEntries (rev fourEntries) /\
  LogList (host := utcHost) fourEntries = LogList (host := utcHost) (rev fourEntries).
Proof.
  split; [exact utcHost_days_are_intervals|].
  split; [apply Permutation_rev|].
  apply (list_view_ignores_log_order (host := utcHost) fourEntries (rev fourEntries)
           utcHost_days_are_intervals (Permutation_rev fourEntries)).
  intros a b Ha Hb.
  cbn in Ha, Hb.
  repeat match goal with
         | H : _ \/ _ |- _ => destruct H as [<-|H]
         | H : False |- _ => destruct H
         end; intros Heq; (reflexivity || discriminate Heq).
Defined.

(** ** App and useLocalStorage: what is saved, and what is left alone *)

(** Case analysis on the state, then evaluation with what is known. *)
Ltac js_run := js_cases; js_known; js_unfold.

Section StateMore.
Context {host : Host}.

Lemma handleLogUrination_saved (s : State) (st : Storage) :
  window s = Some st -> accessDenied st = false -> quotaExceeded st = false ->
  window (snd (handleLogUrination s)) =
  Some (mkStorage
          (<[storageKey := JSON_stringify (log (snd (handleLogUrination s)))]> (items st))
          false false).
Proof.
  intros Hw Ha Hq. destruct (handleLogUrination_run s) as (_ & -> & _).
  unfold handleLogUrination, setLog, setValue, try_catch, bind, ret,
    storedValue, setStoredValue, Date_now, typeof_window_undefined,
    localStorage_setItem, showToast, console_error.
  js_known. reflexivity.
Qed.

(** X12. On a storage that takes the write, recording an entry stores the
    text of the whole new log under the key; JSON reading that text back, a
    later session that finds this storage starts from the log as it was
    after the entry. *)
Theorem append_survives_reload (s : State) (st : Storage) :
  window s = Some st -> accessDenied st = false -> quotaExceeded st = false ->
  let s' := snd (handleLogUrination s) in
  truthy (JSON_stringify (log s')) = true ->
  JSON_parse (JSON_stringify (log s')) = Returns (log s') ->
  (exists st', window s' = Some st' /\
               items st' !! storageKey = Some (JSON_stringify (log s'))) /\
  (forall later initialValue, window later = window s' ->
      fst (useLocalStorage_init storageKey initialValue later) = Returns (log s')).
Proof.
  intros Hw Ha Hq s' Htext Hjson. subst s'.
  pose proof (handleLogUrination_saved s st Hw Ha Hq) as Hst.
  split.
  { eexists. split; [exact Hst|]. cbn. apply lookup_insert_eq. }
  intros later initialValue Hlater.
  rewrite load_cases, Hlater, Hst. cbn.
  now rewrite lookup_insert_eq, Htext, Hjson.
Qed.

(** X13. When the storage refuses the write, recording an entry still
    returns normally, puts the entry in the log in memory and shows the
    same confirmation; the storage is left as it was, the error goes to the
    console, and a later session that finds this storage starts from what
    it would have started from before the entry. *)
Theorem refused_save_is_only_logged (s : State) (st : Storage) :
  window s = Some st ->
  accessDenied st = true \/ quotaExceeded st = true ->
  let s' := snd (handleLogUrination s) in
  fst (handleLogUrination s) = Returns tt /\
  (exists newEntry, log s' = newEntry :: log s) /\
  toastMessage s' = Some "¡Registro guardado!" /\
  window s' = window s /\
  (exists error, console s' = console s ++ [error]) /\
  (forall later initialValue, window later = window s' ->
      fst (useLocalStorage_init storageKey initialValue later) =
      fst (useLocalStorage_init storageKey initialValue s)).
Proof.
  intros Hw Hfail s'. subst s'.
  assert (Hrun : toastMessage (snd (handleLogUrination s)) = Some "¡Registro guardado!" /\
                 window (snd (handleLogUrination s)) = window s /\
                 exists error, console (snd (handleLogUrination s)) = console s ++ [error]).
  { unfold handleLogUrination, setLog, setValue, try_catch, bind, ret,
      storedValue, setStoredValue, Date_now, typeof_window_undefined,
      localStorage_setItem, showToast, console_error.
    destruct Hfail as [Hfail|Hfail]; js_run;
      (split; [reflexivity|split; [congruence|eexists; reflexivity]]). }
  destruct Hrun as (Ht & Hwin & Hc).
  destruct (handleLogUrination_run s) as (Hr & Hl & _).
  split; [assumption|]. split; [eexists; exact Hl|].
  split; [assumption|]. split; [assumption|]. split; [assumption|].
  intros later initialValue Hlater. rewrite !load_cases, Hlater, Hwin. reflexivity.
Qed.

Lemma load_state (key : string) (initialValue : list LogEntry) (s : State) :
  snd (useLocalStorage_init key initialValue s) =
  match window s with
  | None => s
  | Some st =>
      if accessDenied st then with_console (console s ++ ["SecurityError"]) s
      else match items st !! key with
           | None => s
           | Some text =>
               if truthy text
               then match JSON_parse text with
                    | Returns _ => s
                    | Throws error => with_console (console s ++ [error]) s
                    end
               else s
           end
  end.
Proof.
  unfold useLocalStorage_init, bind, try_catch, typeof_window_undefined,
    localStorage_getItem, lift, ret, console_error.
  destruct (window s) as [st|] eqn:Hw; cbn; rewrite ?Hw; cbn; [|reflexivity].
  destruct (accessDenied st); cbn; [reflexivity|].
  destruct (items st !! key) as [text|]; cbn; [|reflexivity].
  destruct (truthy text); cbn; [|reflexivity].
  destruct (JSON_parse text); reflexivity.
Qed.

(** X14. The initial load only reads: it leaves the state as it is, except
    that it writes one message to the console when reading the storage or
    parsing the text threw.  Without a window, and when the key is absent,
    nothing at all changes. *)
Theorem load_only_reads (key : string) (initialValue : list LogEntry) (s : State) :
  let after := snd (useLocalStorage_init key initialValue s) in
  (after = s \/ exists error, after = with_console (console s ++ [error]) s) /\
  (window s = None -> after = s) /\
  (forall st, window s = Some st -> accessDenied st = false ->
      items st !! key = None -> after = s) /\
  (forall st text v, window s = Some st -> accessDenied st = false ->
      items st !! key = Some text -> JSON_parse text = Returns v -> after = s) /\
  (forall st, window s = Some st -> accessDenied st = true ->
      after = with_console (console s ++ ["SecurityError"]) s) /\
  (forall st text error, window s = Some st -> accessDenied st = false ->
      items st !! key = Some text -> truthy text = true ->
      JSON_parse text = Throws error ->
      after = with_console (console s ++ [error]) s).
Proof.
  intros after. subst after. rewrite load_state.
  split.
  { destruct (window s) as [st|]; [|now left].
    destruct (accessDenied st); [right; eexists; reflexivity|].
    destruct (items st !! key) as [text|]; [|now left].
    destruct (truthy text); [|now left].
    destruct (JSON_parse text); [now left|right; eexists; reflexivity]. }
  split; [now intros ->|].
  split; [now intros st -> -> ->|].
  split.
  { intros st text v -> -> -> ->. now destruct (truthy text). }
  split; [now intros st -> ->|].
  now intros st text error -> -> -> -> ->.
Qed.

(** X11. Without the user's confirmation, clearing does nothing: the log,
    the storage and the rest of the state stay as they are and no message
    is shown. *)
Theorem clear_needs_confirmation (s : State) :
  confirmReply s = false -> handleClearLog s = (Returns tt, s).
Proof.
  intros Hno. unfold handleClearLog, window_confirm, bind, ret. now rewrite Hno.
Qed.

(** X15. Copying the log and opening the details of a day never change the
    log, the storage, the console or the clock; copying also leaves the
    selected day alone, and opening the details leaves the clipboard and
    the message shown alone. *)
Theorem copy_and_details_leave_the_log (s : State) (dateString : string) :
  let copied := snd (handleCopyToClipboard s) in
  let opened := snd (handleBarClick dateString s) in
  (log copied = log s /\ window copied = window s /\ console copied = console s /\
   ticks copied = ticks s /\ selectedDayData copied = selectedDayData s) /\
  (log opened = log s /\ window opened = window s /\ console opened = console s /\
   ticks opened = ticks s /\ clipboard opened = clipboard s /\
   toastMessage opened = toastMessage s).
Proof.
  intros copied opened. subst copied opened. split; [|repeat split].
  unfold handleCopyToClipboard, bind, storedValue, clipboard_writeText, showToast.
  cbv beta iota.
  destruct (Z.of_nat (List.length (log s)) =? 0); [repeat split|].
  destruct (clipboardRejects s); repeat split.
Qed.
End StateMore.

(** ** App: the log that presses of '+' build *)

Lemma pressed_S (s : State) (n : nat) :
  pressed s (S n) =
  mkLogEntry (clock s (ticks s + 2 * n)%nat) (clock s (S (ticks s + 2 * n))%nat)
    :: pressed s n.
Proof. unfold pressed. now rewrite seq_S, rev_app_distr. Qed.

Lemma pressed_In (s : State) (n : nat) (entry : LogEntry) :
  In entry (pressed s n) ->
  exists i, (i < n)%nat /\
            entry = mkLogEntry (clock s (ticks s + 2 * i)%nat)
                      (clock s (S (ticks s + 2 * i))%nat).
Proof.
  unfold pressed. intros (i & <- & Hi)%in_map_iff.
  apply in_rev, in_seq in Hi. exists i. split; [lia|reflexivity].
Qed.

Section PressMore.
Context {host : Host}.

(** X16. With a clock that never goes back, the log built by presses of
    '+' from the empty log lists the entries newest first, and no entry has
    an id later than its timestamp. *)
Theorem presses_build_newest_first (n : nat) (s : State) :
  log s = [] ->
  clock_monotone s ->
  StronglySorted (fun a b => timestamp b <= timestamp a) (log (snd (pressLog n s))) /\
  Forall (fun entry => id entry <= timestamp entry) (log (snd (pressLog n s))).
Proof.
  intros Hempty Hmono.
  destruct (pressLog_run n s) as (_ & -> & _). rewrite Hempty, app_nil_r.
  split.
  - induction n as [|n IH]; [constructor|]. rewrite pressed_S.
    constructor; [assumption|].
    apply List.Forall_forall. intros entry (i & Hi & ->)%pressed_In. cbn.
    apply Hmono. lia.
  - apply List.Forall_forall. intros entry (i & Hi & ->)%pressed_In. cbn.
    apply Hmono. lia.
Qed.

(** X17. With a clock that moves on between any two readings, the entries
    built by presses of '+' from the empty log have pairwise distinct ids
    and pairwise distinct timestamps. *)
Theorem presses_build_distinct_ids (n : nat) (s : State) :
  log s = [] ->
  clock_increasing s ->
  List.NoDup (List.map id (log (snd (pressLog n s)))) /\
  List.NoDup (List.map timestamp (log (snd (pressLog n s)))).
Proof.
  intros Hempty Hinc.
  destruct (pressLog_run n s) as (_ & -> & _). rewrite Hempty, app_nil_r.
  split; induction n as [|n IH]; try constructor; rewrite pressed_S; cbn [List.map];
    (constructor; [|assumption]);
    intros (entry & Heq & (i & Hi & ->)%pressed_In)%in_map_iff; cbn in Heq;
    match type of Heq with
    | clock s ?a = clock s ?b =>
        pose proof (Hinc a b ltac:(lia)); lia
    end.
Qed.
End PressMore.

(** With a clock that stands still, two presses give two entries with the
    same id. *)
Example frozen_clock_repeats_ids :
  List.map id (log (snd (pressLog (host := utcHost) 2 frozenState))) = [1000; 1000].
Proof. reflexivity. Qed.

(** ** The service worker *)

Module ServiceWorkerFacts.
Import ServiceWorker.

Lemma not_whitelisted (name : string) :
  (indexOf cacheWhitelist name =? -1) = negb (String.eqb CACHE_NAME name).
Proof.
  unfold cacheWhitelist. cbn [indexOf].
  now destruct (String.eqb CACHE_NAME name).
Qed.

Lemma delete_others_lookup (names : list string)
    (acc : gmap string (gmap string Response)) (name : string) :
  fold_left
    (fun acc cacheName =>
       if indexOf cacheWhitelist cacheName =? -1 then delete cacheName acc else acc)
    names acc !! name =
  if negb (String.eqb CACHE_NAME name) && existsb (String.eqb name) names
  then None else acc !! name.
Proof.
  revert acc. induction names as [|x names IH]; intros acc; cbn [fold_left existsb].
  - now rewrite andb_false_r.
  - rewrite IH, not_whitelisted.
    destruct (String.eqb_spec CACHE_NAME name) as [Hname|Hname]; cbn [negb andb].
    + destruct (String.eqb_spec CACHE_NAME x) as [Hx|Hx]; cbn [negb]; [reflexivity|].
      apply lookup_delete_ne. congruence.
    + destruct (String.eqb_spec name x) as [Hx|Hx]; cbn [orb].
      * rewrite <- Hx.
        destruct (String.eqb_spec CACHE_NAME name); [contradiction|]. cbn [negb].
        rewrite lookup_delete_eq. now destruct (existsb _ names).
      * destruct (existsb (String.eqb name) names); [reflexivity|].
        destruct (String.eqb CACHE_NAME x); cbn [negb]; [reflexivity|].
        apply lookup_delete_ne. congruence.
Qed.

Lemma activate_lookup (caches : gmap string (gmap string Response)) (name : string) :
  activate caches !! name =
  if String.eqb name CACHE_NAME then caches !! name else None.
Proof.
  unfold activate. rewrite delete_others_lookup.
  rewrite (String.eqb_sym name CACHE_NAME).
  destruct (String.eqb CACHE_NAME name); cbn [negb andb]; [reflexivity|].
  destruct (existsb (String.eqb name) (List.map fst (map_to_list caches))) eqn:E;
    [reflexivity|].
  destruct (caches !! name) as [cache|] eqn:Hc; [|reflexivity].
  exfalso. apply not_true_iff_false in E. apply E. apply existsb_exists.
  exists name. split; [|apply String.eqb_refl].
  apply in_map_iff. exists (name, cache). split; [reflexivity|].
  apply list_elem_of_In, elem_of_map_to_list. exact Hc.
Qed.

(** X18. Activation deletes every cache but the current one, and leaves the
    current one, with all it holds, as it is. *)
Theorem activate_keeps_only_current (caches : gmap string (gmap string Response)) :
  activate caches !! CACHE_NAME = caches !! CACHE_NAME /\
  (forall name, name <> CACHE_NAME -> activate caches !! name = None) /\
  (forall request, cached (activate caches) request = cached caches request).
Proof.
  split; [now rewrite activate_lookup, String.eqb_refl|].
  split.
  { intros name Hne. rewrite activate_lookup.
    destruct (String.eqb_spec name CACHE_NAME); [contradiction|reflexivity]. }
  intros request. unfold cached. now rewrite activate_lookup, String.eqb_refl.
Qed.

Lemma cached_after_fetch (network : string -> Outcome Response)
    (request url : string) (caches : gmap string (gmap string Response)) :
  cached (snd (onFetch network request caches)) url =
  if String.eqb url request
  then match network request with
       | Returns response =>
           if status response =? 200 then Some response else cached caches request
       | Throws _ => cached caches request
       end
  else cached caches url.
Proof.
  assert (Hopen : forall cache caches1,
             caches_open CACHE_NAME caches = (cache, caches1) ->
             forall u, cache !! u = cached caches u).
  { unfold caches_open, cached. intros cache caches1.
    destruct (caches !! CACHE_NAME); intros [= <- <-] u; [reflexivity|].
    apply lookup_empty. }
  unfold onFetch. destruct (caches_open CACHE_NAME caches) as [cache caches1] eqn:Ho.
  specialize (Hopen cache caches1 eq_refl).
  cbn [snd]. unfold cached at 1. rewrite lookup_insert_eq. rewrite <- !Hopen.
  destruct (String.eqb_spec url request) as [->|Hne].
  - destruct (network request) as [response|]; [|reflexivity].
    destruct (status response =? 200); [apply lookup_insert_eq|reflexivity].
  - destruct (network request) as [response|]; [|reflexivity].
    destruct (status response =? 200); [|reflexivity].
    apply lookup_insert_ne. congruence.
Qed.

(** X19. A fetch stores the answer of the network for its request exactly
    when the status is 200; a failure or another status leaves what was
    stored, the other requests of the cache are not touched, nor are the
    other caches. *)
Theorem fetch_stores_only_status_200 (network : string -> Outcome Response)
    (request : string) (caches : gmap string (gmap string Response)) :
  let after := snd (onFetch network request caches) in
  (forall response, network request = Returns response -> status response = 200 ->
      cached after request = Some response) /\
  (forall response, network request = Returns response -> status response <> 200 ->
      cached after request = cached caches request) /\
  (forall error, network request = Throws error ->
      cached after request = cached caches request) /\
  (forall url, url <> request -> cached after url = cached caches url) /\
  (forall name, name <> CACHE_NAME -> after !! name = caches !! name).
Proof.
  intros after. subst after.
  split.
  { intros response Hn Hs. rewrite cached_after_fetch, String.eqb_refl, Hn.
    now rewrite Hs. }
  split.
  { intros response Hn Hs. rewrite cached_after_fetch, String.eqb_refl, Hn.
    destruct (Z.eqb_spec (status response) 200); [contradiction|reflexivity]. }
  split.
  { intros error Hn. now rewrite cached_after_fetch, String.eqb_refl, Hn. }
  split.
  { intros url Hne. rewrite cached_after_fetch.
    destruct (String.eqb_spec url request); [contradiction|reflexivity]. }
  intros name Hne. unfold onFetch, caches_open.
  destruct (caches !! CACHE_NAME) as [cache|] eqn:Hc; cbn [snd];
    rewrite ?lookup_insert_ne by congruence; reflexivity.
Qed.

Lemma caches_open_current (caches caches1 : gmap string (gmap string Response))
    (cache : gmap string Response) :
  caches_open CACHE_NAME caches = (cache, caches1) ->
  (forall url, cache !! url = cached caches url) /\
  (forall url, cached caches1 url = cached caches url).
Proof.
  unfold caches_open, cached.
  destruct (caches !! CACHE_NAME) as [c|] eqn:Hc; intros [= <- <-].
  - split; [reflexivity|]. intros url. now rewrite Hc.
  - split; intros url; [apply lookup_empty|]. now rewrite lookup_insert_eq.
Qed.

Lemma fetchAll_fetched (network : string -> Outcome Response) (urls : list string)
    (fetched : list (string * Response)) :
  fetchAll network urls = Returns fetched ->
  List.map fst fetched = urls /\
  Forall (fun p => network (fst p) = Returns (snd p) /\ ok (snd p) = true) fetched.
Proof.
  revert fetched. induction urls as [|url urls IH]; intros fetched; cbn [fetchAll].
  - intros [= <-]. split; [reflexivity|constructor].
  - destruct (network url) as [response|] eqn:Hn; [|discriminate].
    destruct (ok response) eqn:Hok; [|discriminate].
    destruct (fetchAll network urls) as [rest|]; [|discriminate].
    intros [= <-]. destruct (IH rest eq_refl) as [Hu Hall].
    split; [cbn; now rewrite Hu|]. constructor; [now split|assumption].
Qed.

Lemma put_all_lookup (network : string -> Outcome Response)
    (fetched : list (string * Response)) (cache : gmap string Response) (url : string) :
  Forall (fun p => network (fst p) = Returns (snd p) /\ ok (snd p) = true) fetched ->
  fold_left (fun c '(u, response) => <[u := response]> c) fetched cache !! url =
  if existsb (String.eqb url) (List.map fst fetched)
  then match network url with Returns response => Some response | Throws _ => None end
  else cache !! url.
Proof.
  intros Hall. revert cache.
  induction Hall as [|[u response] fetched [Hn _] _ IH]; intros cache;
    cbn [fold_left List.map existsb fst]; [reflexivity|].
  rewrite IH. cbn [fst snd] in Hn.
  destruct (String.eqb_spec url u) as [->|Hne]; cbn [orb].
  - rewrite Hn, lookup_insert_eq. now destruct (existsb _ _).
  - destruct (existsb _ _); [reflexivity|]. apply lookup_insert_ne. congruence.
Qed.

Lemma cached_after_install (network : string -> Outcome Response)
    (caches : gmap string (gmap string Response)) (url : string) :
  cached (snd (install network caches)) url =
  match fetchAll network urlsToCache with
  | Returns _ =>
      if existsb (String.eqb url) urlsToCache
      then match network url with Returns response => Some response | Throws _ => None end
      else cached caches url
  | Throws _ => cached caches url
  end.
Proof.
  unfold install, cache_addAll.
  destruct (caches_open CACHE_NAME caches) as [cache caches1] eqn:Ho.
  destruct (caches_open_current _ _ _ Ho) as [Hcache Hcaches1].
  destruct (fetchAll network urlsToCache) as [fetched|] eqn:Hf; cbn [snd].
  - destruct (fetchAll_fetched _ _ _ Hf) as [Hu Hall].
    unfold cached at 1. rewrite lookup_insert_eq.
    rewrite (put_all_lookup network fetched cache url Hall), Hu, Hcache. reflexivity.
  - apply Hcaches1.
Qed.

Lemma handle_keeps_cached (event : Event)
    (caches : gmap string (gmap string Response)) (request : string) :
  is_Some (cached caches request) -> is_Some (cached (handle event caches) request).
Proof.
  intros Hc. destruct event as [network| |network url]; cbn [handle].
  - rewrite cached_after_install.
    destruct (fetchAll network urlsToCache) as [fetched|] eqn:Hf; [|assumption].
    destruct (existsb (String.eqb request) urlsToCache) eqn:E; [|assumption].
    apply existsb_exists in E as (u & Hu & ->%String.eqb_eq).
    destruct (fetchAll_fetched _ _ _ Hf) as [Hm Hall].
    rewrite <- Hm in Hu. apply in_map_iff in Hu as ([u' r] & <- & Hin).
    rewrite List.Forall_forall in Hall. destruct (Hall _ Hin) as [Hn _].
    cbn [fst snd] in *. rewrite Hn. now eexists.
  - unfold cached. rewrite activate_lookup, String.eqb_refl. exact Hc.
  - rewrite cached_after_fetch.
    destruct (String.eqb_spec request url) as [->|]; [|assumption].
    destruct (network url) as [response|]; [|assumption].
    destruct (status response =? 200); [now eexists|assumption].
Qed.

Lemma run_keeps_cached (events : list Event)
    (caches : gmap string (gmap string Response)) (request : string) :
  is_Some (cached caches request) -> is_Some (cached (run events caches) request).
Proof.
  unfold run. revert caches.
  induction events as [|event events IH]; intros caches Hc; cbn [fold_left];
    [assumption|].
  apply IH. now apply handle_keeps_cached.
Qed.

Lemma onFetch_response (network : string -> Outcome Response) (request : string)
    (caches : gmap string (gmap string Response)) :
  fst (onFetch network request caches) =
  match cached caches request with
  | Some response => Returns response
  | None => network request
  end.
Proof.
  unfold onFetch.
  destruct (caches_open CACHE_NAME caches) as [cache caches1] eqn:Ho.
  destruct (caches_open_current _ _ _ Ho) as [Hcache _].
  cbn [fst]. now rewrite Hcache.
Qed.

(** X20. A request answered once by the network with status 200 is
    answered from then on, also when the network is down: the next fetch
    returns that very response, and after any further installs,
    activations and fetches a fetch of it still returns a response. *)
Theorem fetched_once_served_offline (network : string -> Outcome Response)
    (request : string) (response : Response)
    (caches : gmap string (gmap string Response)) :
  network request = Returns response ->
  status response = 200 ->
  let visited := snd (onFetch network request caches) in
  (forall network', fst (onFetch network' request visited) = Returns response) /\
  (forall events network',
      exists response',
        fst (onFetch network' request (run events visited)) = Returns response').
Proof.
  intros Hn Hs visited. subst visited.
  assert (Hc : cached (snd (onFetch network request caches)) request = Some response).
  { now rewrite cached_after_fetch, String.eqb_refl, Hn, Hs. }
  split.
  { intros network'. now rewrite onFetch_response, Hc. }
  intros events network'. rewrite onFetch_response.
  destruct (run_keeps_cached events _ request (ex_intro _ _ Hc)) as [r ->].
  now exists r.
Qed.

(** X21. An installation that succeeds has stored, for each URL of the
    application shell, the response the network gave for it, and a fetch of
    such a URL is then answered with that response whatever the network
    does; an installation that fails has stored nothing. *)
Theorem install_stores_the_shell (network : string -> Outcome Response)
    (caches : gmap string (gmap string Response)) :
  let installed := snd (install network caches) in
  (fst (install network caches) = Returns tt ->
   forall url, In url urlsToCache ->
     exists response,
       network url = Returns response /\ ok response = true /\
       cached installed url = Some response /\
       forall network', fst (onFetch network' url installed) = Returns response) /\
  (forall error, fst (install network caches) = Throws error ->
   forall url, cached installed url = cached caches url).
Proof.
  intros installed. subst installed.
  assert (Hfst : fst (install network caches) =
                 match fetchAll network urlsToCache with
                 | Returns _ => Returns tt
                 | Throws error => Throws error
                 end).
  { unfold install, cache_addAll.
    destruct (caches_open CACHE_NAME caches) as [cache caches1].
    now destruct (fetchAll network urlsToCache). }
  split.
  - intros Hok url Hurl. rewrite Hfst in Hok.
    destruct (fetchAll network urlsToCache) as [fetched|] eqn:Hf; [|discriminate].
    destruct (fetchAll_fetched _ _ _ Hf) as [Hm Hall].
    assert (Hin : In url (List.map fst fetched)) by now rewrite Hm.
    apply in_map_iff in Hin as ([u r] & <- & Hin).
    rewrite List.Forall_forall in Hall. destruct (Hall _ Hin) as [Hn Hr].
    cbn [fst snd] in *. exists r.
    assert (Hc : cached (snd (install network caches)) u = Some r).
    { rewrite cached_after_install, Hf.
      assert (E : existsb (String.eqb u) urlsToCache = true).
      { apply existsb_exists. exists u. split; [assumption|apply String.eqb_refl]. }
      now rewrite E, Hn. }
    split; [assumption|]. split; [assumption|]. split; [assumption|].
    intros network'. now rewrite onFetch_response, Hc.
  - intros error Herr url. rewrite Hfst in Herr. rewrite cached_after_install.
    now destruct (fetchAll network urlsToCache).
Qed.
End ServiceWorkerFacts.

(** ** The further statements at work on the concrete hosts *)

Lemma freshState_clock_increasing : clock_increasing freshState.
Proof. intros i j Hij. cbn. lia. Qed.

Lemma freshState_clock_monotone : clock_monotone freshState.
Proof. intros i j Hij. cbn. lia. Qed.

Lemma presses_build_newest_first_witness :
  log freshState = [] /\
  clock_monotone freshState /\
  StronglySorted (fun a b => timestamp b <= timestamp a)
    (log (snd (pressLog (host := utcHost) 3 freshState))).
Proof.
  split; [reflexivity|]. split; [exact freshState_clock_monotone|].
  exact (proj1 (presses_build_newest_first (host := utcHost) 3 freshState
                  eq_refl freshState_clock_monotone)).
Defined.

Lemma presses_build_distinct_ids_witness :
  log freshState = [] /\
  clock_increasing freshState /\
  List.NoDup (List.map id (log (snd (pressLog (host := utcHost) 3 freshState)))).
Proof.
  split; [reflexivity|]. split; [exact freshState_clock_increasing|].
  exact (proj1 (presses_build_distinct_ids (host := utcHost) 3 freshState
                  eq_refl freshState_clock_increasing)).
Defined.

Lemma clear_needs_confirmation_witness :
  confirmReply decliningState = false /\
  handleClearLog (host := utcHost) decliningState = (Returns tt, decliningState).
Proof.
  split; [reflexivity|].
  exact (clear_needs_confirmation (host := utcHost) decliningState eq_refl).
Defined.

Lemma append_survives_reload_witness :
  fst (useLocalStorage_init (host := jsonHost) storageKey []
         (snd (handleLogUrination (host := jsonHost) loggedState))) =
  Returns (mkLogEntry 1000 1001 :: fourEntries).
Proof.
  pose proof (append_survives_reload (host := jsonHost) loggedState
                (mkStorage
                   {[ storageKey := JSON_stringify (Host := utcHost) fourEntries ]}
                   false false)
                eq_refl eq_refl eq_refl) as H.
  cbv zeta in H.
  assert (Htext : truthy (JSON_stringify (Host := jsonHost)
                    (log (snd (handleLogUrination (host := jsonHost) loggedState))))
                  = true) by (vm_compute; reflexivity).
  assert (Hjson : JSON_parse (Host := jsonHost)
                    (JSON_stringify (Host := jsonHost)
                       (log (snd (handleLogUrination (host := jsonHost) loggedState))))
                  = Returns (log (snd (handleLogUrination (host := jsonHost) loggedState))))
    by (vm_compute; reflexivity).
  destruct (H Htext Hjson) as [_ Hload].
  exact (Hload (snd (handleLogUrination (host := jsonHost) loggedState)) [] eq_refl).
Defined.

Lemma refused_save_is_only_logged_witness :
  log (snd (handleLogUrination (host := utcHost) corruptState)) =
    [mkLogEntry 1000 1001] /\
  window (snd (handleLogUrination (host := utcHost) corruptState)) =
    window corruptState /\
  exists error,
    console (snd (handleLogUrination (host := utcHost) corruptState)) =
    console corruptState ++ [error].
Proof.
  pose proof (refused_save_is_only_logged (host := utcHost) corruptState
                (mkStorage {[ storageKey := "oops" ]} false true)
                eq_refl (or_intror eq_refl)) as (_ & _ & _ & Hw & Hc & _).
  split; [reflexivity|]. split; [exact Hw|exact Hc].
Defined.

Lemma load_only_reads_witness :
  snd (useLocalStorage_init (host := utcHost) storageKey [] corruptState) =
  with_console (console corruptState ++ ["SyntaxError"]) corruptState.
Proof.
  pose proof (load_only_reads (host := utcHost) storageKey [] corruptState)
    as (_ & _ & _ & _ & _ & Hbad).
  apply (Hbad (mkStorage {[ storageKey := "oops" ]} false true) "oops" "SyntaxError");
    reflexivity.
Defined.

Lemma fetched_once_served_offline_witness :
  fst (ServiceWorker.onFetch ServiceWorker.offline "/"
         (ServiceWorker.run [ServiceWorker.Activate]
            (snd (ServiceWorker.onFetch shellNetwork "/" oldCaches)))) =
  Returns (ServiceWorker.mkResponse 200 "page /").
Proof.
  pose proof (ServiceWorkerFacts.fetched_once_served_offline shellNetwork "/"
                (ServiceWorker.mkResponse 200 "page /") oldCaches eq_refl eq_refl)
    as [_ H].
  destruct (H [ServiceWorker.Activate] ServiceWorker.offline) as [r Hr].
  rewrite Hr. f_equal.
  assert (Hrun : fst (ServiceWorker.onFetch ServiceWorker.offline "/"
                   (ServiceWorker.run [ServiceWorker.Activate]
                      (snd (ServiceWorker.onFetch shellNetwork "/" oldCaches)))) =
                 Returns (ServiceWorker.mkResponse 200 "page /"))
    by (vm_compute; reflexivity).
  rewrite Hr in Hrun. now injection Hrun.
Defined.

Lemma install_stores_the_shell_witness :
  fst (ServiceWorker.install shellNetwork oldCaches) = Returns tt /\
  fst (ServiceWorker.onFetch ServiceWorker.offline "/index.html"
         (snd (ServiceWorker.install shellNetwork oldCaches))) =
  Returns (ServiceWorker.mkResponse 200 "page /index.html").
Proof.
  assert (Hok : fst (ServiceWorker.install shellNetwork oldCaches) = Returns tt)
    by (vm_compute; reflexivity).
  split; [exact Hok|].
  pose proof (ServiceWorkerFacts.install_stores_the_shell shellNetwork oldCaches)
    as [H _].
  destruct (H Hok "/index.html" ltac:(right; left; reflexivity))
    as (r & Hn & _ & _ & Hserve).
  rewrite Hserve. injection Hn as <-. reflexivity.
Defined.

(** ** LogChart: the edges of the period window *)

(** X22. The window of a period is open at its old end and has no new end:
    an entry recorded exactly 7x24h (30x24h) before now is left out of
    'week' ('month'), one recorded a millisecond later is kept, and an
    entry stamped later than now passes every period. *)
Theorem period_window_edges (now : Z) (period : ChartPeriod) (entry : LogEntry)
    (entries : list LogEntry) :
  In entry entries ->
  (timestamp entry = now - 7 * oneDay -> ~ In entry (filteredEntries now week entries)) /\
  (timestamp entry = now - 7 * oneDay + 1 -> In entry (filteredEntries now week entries)) /\
  (timestamp entry = now - 30 * oneDay -> ~ In entry (filteredEntries now month entries)) /\
  (timestamp entry = now - 30 * oneDay + 1 ->
     In entry (filteredEntries now month entries)) /\
  (now <= timestamp entry -> In entry (filteredEntries now period entries)).
Proof.
  intros Hin.
  assert (Hweek : In entry (filteredEntries now week entries) <->
                  now - 7 * oneDay < timestamp entry).
  { rewrite filteredEntries_week, filter_In, Z.ltb_lt. intuition lia. }
  assert (Hmonth : In entry (filteredEntries now month entries) <->
                   now - 30 * oneDay < timestamp entry).
  { rewrite filteredEntries_month, filter_In, Z.ltb_lt. intuition lia. }
  split; [rewrite Hweek; lia|].
  split; [rewrite Hweek; lia|].
  split; [rewrite Hmonth; lia|].
  split; [rewrite Hmonth; lia|].
  intros Hfuture. destruct period.
  - apply Hweek. unfold oneDay. lia.
  - apply Hmonth. unfold oneDay. lia.
  - now rewrite filteredEntries_all.
Qed.

Lemma period_window_edges_witness :
  In (mkLogEntry 1 (10 * oneDay)) [mkLogEntry 1 (10 * oneDay)] /\
  ~ In (mkLogEntry 1 (10 * oneDay))
      (filteredEntries (17 * oneDay) week [mkLogEntry 1 (10 * oneDay)]) /\
  In (mkLogEntry 1 (10 * oneDay))
     (filteredEntries (9 * oneDay) week [mkLogEntry 1 (10 * oneDay)]).
Proof.
  assert (Hin : In (mkLogEntry 1 (10 * oneDay)) [mkLogEntry 1 (10 * oneDay)])
    by (left; reflexivity).
  split; [exact Hin|]. split.
  - apply (period_window_edges (17 * oneDay) week _ _ Hin). reflexivity.
  - apply (period_window_edges (9 * oneDay) week _ _ Hin). cbn. unfold oneDay. lia.
Defined.
